(** * pi_ai: the streaming assembler, the OpenAI-compatible usage mapping
      and the provider registry

    A shallow embedding of [pi_ai/event_stream.py], [pi_ai/registry.py] and of
    the usage/cost part of [pi_ai/providers/openai_compat.py].

    Python values are embedded as [pyval]; a [dict] with string keys is a
    [gmap string pyval].  Python floats are IEEE binary64 numbers, embedded as
    Rocq's primitive floats.  Exceptions are explicit: a function that can
    raise returns the state it leaves behind together with what it raised. *)

From Stdlib Require Import ZArith Floats Ascii String.
From stdpp Require Import base option gmap strings list sorting pretty.

Local Open Scope Z_scope.

(** ** Python values *)

Module Py.

#[warnings="-register-all"]
Inductive pyval :=
  | VNone
  | VBool (b : bool)
  | VInt (z : Z)
  | VFloat (f : float)
  | VStr (s : string)
  | VList (l : list pyval)
  | VDict (d : gmap string pyval).

Abbreviation dict := (gmap string pyval).

(** The exceptions the embedded code can raise. *)
Inductive exn :=
  | TypeError
  | OverflowError
  | ValueError (msg : string)
  | StopAsyncIteration
  | JSONDecodeError
  | RecursionError.

(** [d.get(k)]: a missing key reads as [None]. *)
Definition get (d : dict) (k : string) : pyval := default VNone (d !! k).

(** [isinstance(v, int)]; [bool] is a subclass of [int]. *)
Definition is_int (v : pyval) : bool :=
  match v with VInt _ | VBool _ => true | _ => false end.

(** [isinstance(v, str)]. *)
Definition is_str (v : pyval) : bool :=
  match v with VStr _ => true | _ => false end.

(** [isinstance(v, (int, float))]. *)
Definition is_number (v : pyval) : bool :=
  match v with VInt _ | VBool _ | VFloat _ => true | _ => false end.

(** The numeric value of an [int] object ([True == 1], [False == 0]). *)
Definition int_value (v : pyval) : Z :=
  match v with VInt z => z | VBool b => Z.b2z b | _ => 0 end.

(** [v == lit] for a string literal [lit]. *)
Definition eq_str (v : pyval) (lit : string) : bool :=
  match v with VStr s => bool_decide (s = lit) | _ => false end.

(** Truth value of a [str]: non-empty. *)
Definition truthy (s : string) : bool :=
  match s with EmptyString => false | _ => true end.

(** [hash(v)] succeeds on everything but lists and dicts. *)
Definition hashable (v : pyval) : bool :=
  match v with VList _ | VDict _ => false | _ => true end.

(** [float(z)] for an [int]: the nearest binary64 number, ties to even;
    an [int] too large for a finite float raises [OverflowError]. *)
Definition float_of_int (z : Z) : exn + float :=
  let f := SF2Prim (binary_normalize prec emax z 0 false) in
  if PrimFloat.is_infinity f then inl OverflowError else inr f.

(** [float(v)] for a number [v]; the code calls it only under
    [isinstance(v, (int, float))]. *)
Definition to_float (v : pyval) : exn + float :=
  match v with
  | VFloat f => inr f
  | VInt z => float_of_int z
  | VBool b => float_of_int (Z.b2z b)
  | _ => inl TypeError
  end.

(** [str(v)] for an [int] object that is within the interpreter's limit on
    the digits of an integer string conversion; [str_of_int_checked] below
    keeps the limit. *)
Definition str_of_int (v : pyval) : string :=
  match v with
  | VBool true => "True"
  | VBool false => "False"
  | VInt z => pretty z
  | _ => ""
  end.

(** The default of [sys.get_int_max_str_digits()] (Python 3.11 and later). *)
Definition max_str_digits : Z := 4300.

(** [str(v)] for an [int] object: an [int] of more than [max_str_digits]
    digits raises [ValueError]. *)
Definition str_of_int_checked (v : pyval) : exn + string :=
  match v with
  | VInt z =>
      if Z.abs z <? 10 ^ max_str_digits then inr (pretty z)
      else inl (ValueError
                  "Exceeds the limit (4300 digits) for integer string conversion")
  | _ => inr (str_of_int v)
  end.

(** Characters are code points below 256; these are the ones [str.isspace]
    accepts there. *)
Definition is_space (c : ascii) : bool :=
  let n := Z.of_nat (nat_of_ascii c) in
  ((9 <=? n) && (n <=? 13)) || ((28 <=? n) && (n <=? 32))
  || (n =? 133) || (n =? 160).

Fixpoint lstrip (s : string) : string :=
  match s with
  | String c s' => if is_space c then lstrip s' else s
  | EmptyString => EmptyString
  end.

(** [s.strip()]. *)
Definition strip (s : string) : string :=
  String.rev (lstrip (String.rev (lstrip s))).

End Py.
Import Py.

(** An exception-or-value result with its bind. *)
Definition bind_exn {A B : Type} (r : exn + A) (k : A → exn + B) : exn + B :=
  match r with inl x => inl x | inr a => k a end.

Notation "'let*' x ':=' r 'in' k" := (bind_exn r (λ x, k))
  (at level 10, x name, r at level 100, k at level 200, only parsing).

(** ** registry.py *)

Module Registry.

Section Registry.
Context {ApiProvider : Type}.

(** The module-level [_PROVIDERS] dict is threaded explicitly. *)
Definition register_api_provider (api : string) (provider : ApiProvider)
    (_PROVIDERS : gmap string ApiProvider)
    : gmap string ApiProvider * (exn + unit) :=
  match _PROVIDERS !! api with
  | Some _ =>
      (_PROVIDERS,
       inl (ValueError ("Provider already registered for api: " +:+ api)))
  | None => (<[api := provider]> _PROVIDERS, inr ())
  end.

Definition get_api_provider (api : string)
    (_PROVIDERS : gmap string ApiProvider) : option ApiProvider :=
  _PROVIDERS !! api.

Definition clear_registry_for_tests
    (_PROVIDERS : gmap string ApiProvider) : gmap string ApiProvider := ∅.

(** A run of registration calls; exceptions are caught by the caller and
    the run goes on. *)
Definition register_all (calls : list (string * ApiProvider))
    (_PROVIDERS : gmap string ApiProvider) : gmap string ApiProvider :=
  foldl (λ reg c, (register_api_provider c.1 c.2 reg).1) _PROVIDERS calls.

(** The providers offered for [api] by a run of calls, in order. *)
Definition offered (api : string) (calls : list (string * ApiProvider))
    : list ApiProvider :=
  (filter (λ c, c.1 = api) calls).*2.
End Registry.

End Registry.

(** ** types.py *)

Module Types.

Module Model.
Record t := mk { api : string; provider : string; model : string }.
End Model.

Inductive StopReason := Stop | Length | ToolUse | Error | Aborted.


(** The [UsageCost] dict: five string keys, float values. *)
Abbreviation UsageCost := (gmap string float).

(** The [Usage] dict.  Its five token entries are kept in [counters]; the
    entry under ["cost"] is the nested [UsageCost] dict, created together with
    it and never replaced. *)
Record Usage := mkUsage { counters : dict; cost : UsageCost }.

(** Content blocks; [arguments] is the parsed argument object. *)
Inductive ContentBlock :=
  | TextContent (text : string)
  | ToolCallContent (id name : string) (arguments : dict).

(** A reference to a [Usage] dict in the object store. *)
Definition loc := positive.

(** The [AssistantMessage] dict.  [usage] is a reference: the message holds
    the dict object it was given, not a copy.  [error_message] is [None] when
    the key is not set. *)
Record AssistantMessage := mkMessage {
  role : string;
  content : list ContentBlock;
  api : string;
  provider : string;
  model : string;
  usage : loc;
  stop_reason : StopReason;
  timestamp : Z;
  error_message : option string
}.

End Types.
Import Types.

(** ** event_stream.py *)

Module EventStream.

Definition int_keys : list string :=
  ["input"; "output"; "cache_read"; "cache_write"; "total_tokens"].

Definition cost_keys : list string :=
  ["input"; "output"; "cache_read"; "cache_write"; "total"].

Definition _zero_usage : Usage :=
  {| counters := list_to_map ((λ k, (k, VInt 0)) <$> int_keys);
     cost := list_to_map ((λ k, (k, 0%float)) <$> cost_keys) |}.

(** One tool-call accumulator: the dict
    [{"id": .., "name": .., "arguments_json": ..}], all three always [str]. *)
Record Call := mkCall {
  call_id : string;
  call_name : string;
  call_arguments_json : string
}.

Definition new_call : Call := mkCall "" "" "".

(** A wire event. *)
Abbreviation Event := (gmap string pyval).

(** What one [__anext__] call hands to its caller. *)
Inductive Outcome :=
  | Returned (event : Event)
  | Raised (x : exn).

(** The assembler object together with the object store it refers into.
    [_tool_calls] is keyed by the numeric value of the index ([True] and [1]
    are the same dict key); each entry keeps the key object that created it,
    which is the one [sorted] hands back.  [_usage] is a reference into
    [store]; it is assigned once, by [__init__]. *)
Record Assembler := mkAssembler {
  _model : Model.t;
  _text : string;
  _tool_calls : gmap Z (pyval * Call);
  _usage : loc;
  _final : option AssistantMessage;
  _stop_reason : option StopReason;
  _error_message : option string;
  store : gmap loc Usage
}.

Definition set_text (v : string) (self : Assembler) : Assembler :=
  mkAssembler (_model self) v (_tool_calls self) (_usage self) (_final self)
    (_stop_reason self) (_error_message self) (store self).

Definition set_tool_calls (v : gmap Z (pyval * Call)) (self : Assembler)
    : Assembler :=
  mkAssembler (_model self) (_text self) v (_usage self) (_final self)
    (_stop_reason self) (_error_message self) (store self).

Definition set_final (v : option AssistantMessage) (self : Assembler)
    : Assembler :=
  mkAssembler (_model self) (_text self) (_tool_calls self) (_usage self) v
    (_stop_reason self) (_error_message self) (store self).

Definition set_stop_reason (v : option StopReason) (self : Assembler)
    : Assembler :=
  mkAssembler (_model self) (_text self) (_tool_calls self) (_usage self)
    (_final self) v (_error_message self) (store self).

Definition set_error_message (v : option string) (self : Assembler)
    : Assembler :=
  mkAssembler (_model self) (_text self) (_tool_calls self) (_usage self)
    (_final self) (_stop_reason self) v (store self).

Definition set_store (v : gmap loc Usage) (self : Assembler) : Assembler :=
  mkAssembler (_model self) (_text self) (_tool_calls self) (_usage self)
    (_final self) (_stop_reason self) (_error_message self) v.

(** [__init__]: a fresh usage dict is allocated in the store. *)
Definition init (σ : gmap loc Usage) (model : Model.t) : Assembler :=
  let l := fresh (dom σ) in
  mkAssembler model "" ∅ l None None None (<[l := _zero_usage]> σ).

(** [reason in {"stop", "length", "tool_use", "error", "aborted"}], for a
    hashable [reason]. *)
Definition known_reason (reason : pyval) : option StopReason :=
  if eq_str reason "stop" then Some Stop
  else if eq_str reason "length" then Some Length
  else if eq_str reason "tool_use" then Some ToolUse
  else if eq_str reason "error" then Some Error
  else if eq_str reason "aborted" then Some Aborted
  else None.

(** [isinstance(v, str) and v]. *)
Definition nonempty_str (v : pyval) : option string :=
  match v with
  | VStr s => if truthy s then Some s else None
  | _ => None
  end.

(** The body of the [toolcall_delta] case on the accumulator [call]. *)
Definition update_call (event : Event) (call : Call) : Call :=
  let call :=
    match nonempty_str (get event "id") with
    | Some tool_call_id =>
        mkCall tool_call_id (call_name call) (call_arguments_json call)
    | None => call
    end in
  let call :=
    match nonempty_str (get event "name") with
    | Some name => mkCall (call_id call) name (call_arguments_json call)
    | None => call
    end in
  match nonempty_str (get event "arguments_delta") with
  | Some args_delta =>
      mkCall (call_id call) (call_name call)
        (call_arguments_json call +:+ args_delta)
  | None => call
  end.

(** The loop over the token keys of a [usage] event. *)
Definition merge_counters (usage : dict) (c : dict) : dict :=
  foldl (λ c k, let v := get usage k in if is_int v then <[k := v]> c else c)
    c int_keys.

(** The loop over the cost keys; [float(cv)] can raise in the middle, the
    entries written before stay written. *)
Fixpoint merge_cost (cost : dict) (keys : list string) (c : UsageCost)
    : UsageCost * option exn :=
  match keys with
  | [] => (c, None)
  | ck :: keys =>
      let cv := get cost ck in
      if is_number cv then
        match to_float cv with
        | inr f => merge_cost cost keys (<[ck := f]> c)
        | inl x => (c, Some x)
        end
      else merge_cost cost keys c
  end.

(** The body of the [usage] case on the usage dict [u]. *)
Definition merge_usage (usage : dict) (u : Usage) : Usage * option exn :=
  let c := merge_counters usage (counters u) in
  match get usage "cost" with
  | VDict cost =>
      let '(k, r) := merge_cost cost cost_keys (Types.cost u) in
      (mkUsage c k, r)
  | _ => (mkUsage c (Types.cost u), None)
  end.

Section Assembler.

(** [json.loads] on a [str], read as a function that returns a value or
    raises [json.JSONDecodeError], for which [None] stands.  What it raises
    besides that is kept in the section [Raising] below. *)
Variable json_loads : string → option pyval.

(** The built-in [str()] on a value that is not a [str]. *)
Variable builtin_str : pyval → string.

Definition py_str (v : pyval) : string :=
  match v with VStr s => s | _ => builtin_str v end.

(** The argument object of one tool call. *)
Definition parse_arguments (args_json : string) : dict :=
  if truthy (strip args_json) then
    match json_loads args_json with
    | Some (VDict parsed) => parsed
    | _ => ∅
    end
  else ∅.

(** The block appended for the key object [index] and its accumulator. *)
Definition toolcall_block (index : pyval) (call : Call) : ContentBlock :=
  ToolCallContent
    (if truthy (call_id call) then call_id call
     else "toolcall:" +:+ str_of_int index)
    (if truthy (call_name call) then call_name call else "unknown")
    (parse_arguments (call_arguments_json call)).

(** [sorted(self._tool_calls.keys())], as numeric values. *)
Definition sorted_keys (calls : gmap Z (pyval * Call)) : list Z :=
  merge_sort Z.le (map_to_list calls).*1.

Definition toolcall_blocks (calls : gmap Z (pyval * Call))
    : list ContentBlock :=
  omap (λ index, (λ kc, toolcall_block kc.1 kc.2) <$> calls !! index)
    (sorted_keys calls).

(** [_assemble_final]; [now] is what [_now_ms()] returns. *)
Definition _assemble_final (now : Z) (self : Assembler) : AssistantMessage :=
  let stop_reason := default Stop (_stop_reason self) in
  let content :=
    if truthy (_text self) then [TextContent (_text self)] else [] in
  let content := content ++ toolcall_blocks (_tool_calls self) in
  let stop_reason :=
    if bool_decide (_tool_calls self = ∅) then stop_reason
    else match stop_reason with Stop => ToolUse | r => r end in
  {| role := "assistant";
     content := content;
     api := Model.api (_model self);
     provider := Model.provider (_model self);
     model := Model.model (_model self);
     usage := _usage self;
     stop_reason := stop_reason;
     timestamp := now;
     error_message :=
       match _error_message self with
       | Some msg => if truthy msg then Some msg else None
       | None => None
       end |}.

(** [__anext__] once the underlying iterator has produced [event]. *)
Definition anext (now : Z) (self : Assembler) (event : Event)
    : Assembler * Outcome :=
  let ty := get event "type" in
  if eq_str ty "text_delta" then
    match get event "delta" with
    | VStr delta => (set_text (_text self +:+ delta) self, Returned event)
    | _ => (self, Returned event)
    end
  else if eq_str ty "toolcall_delta" then
    let index := get event "index" in
    if negb (is_int index) then (self, Returned event)
    else
      let '(key, call) :=
        default (index, new_call) (_tool_calls self !! int_value index) in
      (set_tool_calls
         (<[int_value index := (key, update_call event call)]>
            (_tool_calls self)) self,
       Returned event)
  else if eq_str ty "done" then
    let reason := get event "reason" in
    if negb (hashable reason) then (self, Raised TypeError)
    else
      let self :=
        set_stop_reason (Some (default Stop (known_reason reason))) self in
      (set_final (Some (_assemble_final now self)) self, Returned event)
  else if eq_str ty "usage" then
    match get event "usage", store self !! _usage self with
    | VDict usage, Some u =>
        let '(u, r) := merge_usage usage u in
        (set_store (<[_usage self := u]> (store self)) self,
         match r with Some x => Raised x | None => Returned event end)
    | _, _ => (self, Returned event)
    end
  else if eq_str ty "error" then
    let err := get event "error" in
    let self :=
      set_error_message
        (Some (match err with VNone => "unknown error" | _ => py_str err end))
        self in
    let self := set_stop_reason (Some Error) self in
    (set_final (Some (_assemble_final now self)) self, Returned event)
  else (self, Returned event).

(** The underlying iterator is the list of the events still to come, each
    with the clock reading at the moment it is processed.  [drain] is
    [async for _ in self: pass]: it stops at the end of the iterator or at the
    first exception, which it passes on; it returns the events left over. *)
Fixpoint drain (self : Assembler) (events : list (Z * Event))
    : Assembler * list (Z * Event) * option exn :=
  match events with
  | [] => (self, [], None)
  | (now, event) :: events =>
      match anext now self event with
      | (self, Returned _) => drain self events
      | (self, Raised x) => (self, events, Some x)
      end
  end.

(** [result()]; [t_end] is the clock reading after the iterator ended. *)
Definition result (self : Assembler) (events : list (Z * Event)) (t_end : Z)
    : Assembler * list (Z * Event) * (exn + AssistantMessage) :=
  match _final self with
  | Some final => (self, events, inr final)
  | None =>
      match drain self events with
      | (self, events, Some x) => (self, events, inl x)
      | (self, events, None) =>
          match _final self with
          | Some final => (self, events, inr final)
          | None =>
              let self :=
                set_stop_reason (Some (default Stop (_stop_reason self)))
                  self in
              let final := _assemble_final t_end self in
              (set_final (Some final) self, events, inr final)
          end
      end
  end.

(** A run of [__anext__] calls, one per event, by a consumer that goes on
    after an exception. *)
Definition steps (self : Assembler) (events : list (Z * Event)) : Assembler :=
  foldl (λ self te, (anext te.1 self te.2).1) self events.

End Assembler.

(** *** Finalization with every exception kept *)

Section Raising.

(** [json.loads] on a [str] with all it raises: [inl JSONDecodeError] on
    malformed text, [inl RecursionError] on nesting deeper than the
    interpreter allows, [inl (ValueError _)] on an integer literal over the
    digit limit. *)
Variable loads : string → exn + pyval.

Variable builtin_str : pyval → string.

(** The [try] block of [_assemble_final]: only [json.JSONDecodeError] is
    caught. *)
Definition parse_arguments_raising (args_json : string) : exn + dict :=
  if truthy (strip args_json) then
    match loads args_json with
    | inr (VDict parsed) => inr parsed
    | inr _ => inr ∅
    | inl JSONDecodeError => inr ∅
    | inl x => inl x
    end
  else inr ∅.

(** One turn of the loop over the sorted keys: the arguments are parsed
    first, then the block is built, the fallback id only when the id is
    empty. *)
Definition toolcall_block_raising (index : pyval) (call : Call)
    : exn + ContentBlock :=
  let* args_obj := parse_arguments_raising (call_arguments_json call) in
  let* id :=
    if truthy (call_id call) then inr (call_id call)
    else let* s := str_of_int_checked index in inr ("toolcall:" +:+ s) in
  inr (ToolCallContent id
         (if truthy (call_name call) then call_name call else "unknown")
         args_obj).

(** The loop: the first exception ends it. *)
Fixpoint toolcall_blocks_loop (calls : gmap Z (pyval * Call))
    (keys : list Z) : exn + list ContentBlock :=
  match keys with
  | [] => inr []
  | index :: keys =>
      match calls !! index with
      | Some (key, call) =>
          let* b := toolcall_block_raising key call in
          let* bs := toolcall_blocks_loop calls keys in
          inr (b :: bs)
      | None => toolcall_blocks_loop calls keys
      end
  end.

Definition _assemble_final_raising (now : Z) (self : Assembler)
    : exn + AssistantMessage :=
  let stop_reason := default Stop (_stop_reason self) in
  let content :=
    if truthy (_text self) then [TextContent (_text self)] else [] in
  let* blocks :=
    toolcall_blocks_loop (_tool_calls self) (sorted_keys (_tool_calls self)) in
  let content := content ++ blocks in
  let stop_reason :=
    if bool_decide (_tool_calls self = ∅) then stop_reason
    else match stop_reason with Stop => ToolUse | r => r end in
  inr {| role := "assistant";
         content := content;
         api := Model.api (_model self);
         provider := Model.provider (_model self);
         model := Model.model (_model self);
         usage := _usage self;
         stop_reason := stop_reason;
         timestamp := now;
         error_message :=
           match _error_message self with
           | Some msg => if truthy msg then Some msg else None
           | None => None
           end |}.

(** [self._final = self._assemble_final()]: when the call raises, the
    assignment does not happen. *)
Definition finalize_raising (now : Z) (self : Assembler) (event : Event)
    : Assembler * Outcome :=
  match _assemble_final_raising now self with
  | inr final => (set_final (Some final) self, Returned event)
  | inl x => (self, Raised x)
  end.

(** [__anext__] once the underlying iterator has produced [event]. *)
Definition anext_raising (now : Z) (self : Assembler) (event : Event)
    : Assembler * Outcome :=
  let ty := get event "type" in
  if eq_str ty "text_delta" then
    match get event "delta" with
    | VStr delta => (set_text (_text self +:+ delta) self, Returned event)
    | _ => (self, Returned event)
    end
  else if eq_str ty "toolcall_delta" then
    let index := get event "index" in
    if negb (is_int index) then (self, Returned event)
    else
      let '(key, call) :=
        default (index, new_call) (_tool_calls self !! int_value index) in
      (set_tool_calls
         (<[int_value index := (key, update_call event call)]>
            (_tool_calls self)) self,
       Returned event)
  else if eq_str ty "done" then
    let reason := get event "reason" in
    if negb (hashable reason) then (self, Raised TypeError)
    else
      let self :=
        set_stop_reason (Some (default Stop (known_reason reason))) self in
      finalize_raising now self event
  else if eq_str ty "usage" then
    match get event "usage", store self !! _usage self with
    | VDict usage, Some u =>
        let '(u, r) := merge_usage usage u in
        (set_store (<[_usage self := u]> (store self)) self,
         match r with Some x => Raised x | None => Returned event end)
    | _, _ => (self, Returned event)
    end
  else if eq_str ty "error" then
    let err := get event "error" in
    let self :=
      set_error_message
        (Some (match err with
               | VNone => "unknown error"
               | _ => py_str builtin_str err
               end))
        self in
    let self := set_stop_reason (Some Error) self in
    finalize_raising now self event
  else (self, Returned event).

(** An accumulator is harmless when [json.loads] raises nothing but
    [JSONDecodeError] on its buffer and its fallback id can be printed. *)
Definition harmless (key : pyval) (call : Call) : Prop :=
  (∀ x, loads (call_arguments_json call) = inl x → x = JSONDecodeError)
  ∧ (truthy (call_id call) = false → ∃ s, str_of_int_checked key = inr s).

(** [loads] read as a function that returns a value or raises
    [json.JSONDecodeError]. *)
Definition decode_only (s : string) : option pyval :=
  match loads s with inr v => Some v | inl _ => None end.

End Raising.

(** *** Vocabulary of the statements *)

Definition is_kind (kind : string) (event : Event) : bool :=
  eq_str (get event "type") kind.

(** A [toolcall_delta] event addressed to the index [i]. *)
Definition is_delta_for (i : Z) (event : Event) : bool :=
  is_kind "toolcall_delta" event && is_int (get event "index")
  && bool_decide (int_value (get event "index") = i).

(** The non-empty string values of [field] carried by the [toolcall_delta]
    events for the index [i], in arrival order. *)
Definition received (field : string) (i : Z) (events : list Event)
    : list string :=
  omap (λ e, if is_delta_for i e then nonempty_str (get e field) else None)
    events.

(** The string fragments carried by the [text_delta] events, in arrival
    order, and the concatenation of a list of strings. *)
Definition text_deltas (events : list Event) : list string :=
  omap (λ e, if is_kind "text_delta" e then
               match get e "delta" with VStr delta => Some delta | _ => None end
             else None) events.

Definition join (l : list string) : string := foldr String.append "" l.

(** A [toolcall_delta] event that carries an [int] index. *)
Definition has_index (event : Event) : bool :=
  is_kind "toolcall_delta" event && is_int (get event "index").

(** An event that is neither [done] nor [error]. *)
Definition streaming (event : Event) : Prop :=
  is_kind "done" event = false ∧ is_kind "error" event = false.

(** What [__anext__] raises on an event, if anything. *)
Definition raises (event : Event) : option exn :=
  if is_kind "done" event then
    if hashable (get event "reason") then None else Some TypeError
  else if is_kind "usage" event then
    match get event "usage" with
    | VDict usage => (merge_usage usage _zero_usage).2
    | _ => None
    end
  else None.

(** The value a [usage] event carries for the token field [k]. *)
Definition counter_field (usage : dict) (k : string) : option pyval :=
  if bool_decide (k ∈ int_keys) && is_int (get usage k)
  then Some (get usage k) else None.

(** The value a [usage] event carries for the cost field [ck]. *)
Definition cost_field (usage : dict) (ck : string) : option float :=
  match get usage "cost" with
  | VDict cost =>
      if bool_decide (ck ∈ cost_keys) && is_number (get cost ck) then
        match to_float (get cost ck) with inr f => Some f | inl _ => None end
      else None
  | _ => None
  end.

(** The dict a [usage] event carries; [None] for any other event. *)
Definition usage_of (event : Event) : option dict :=
  if is_kind "usage" event then
    match get event "usage" with VDict usage => Some usage | _ => None end
  else None.

(** The values the events of a run carry for the token field [k], and for
    the cost field [ck], in arrival order. *)
Definition counter_values (k : string) (events : list Event) : list pyval :=
  omap (λ e, usage_of e ≫= λ usage, counter_field usage k) events.

Definition cost_values (ck : string) (events : list Event) : list float :=
  omap (λ e, usage_of e ≫= λ usage, cost_field usage ck) events.

(** Two usage dicts that carry no field in common. *)
Definition disjoint_fields (usage1 usage2 : dict) : Prop :=
  (∀ k, counter_field usage1 k = None ∨ counter_field usage2 k = None)
  ∧ (∀ ck, cost_field usage1 ck = None ∨ cost_field usage2 ck = None).

(** Every number the usage dict carries for a cost field is one [float()]
    converts: a float, or an [int] that is not too large for one. *)
Definition cost_converts (usage : dict) : Prop :=
  ∀ cost ck, get usage "cost" = VDict cost → ck ∈ cost_keys →
    is_number (get cost ck) = true → ∃ f, to_float (get cost ck) = inr f.

(** A [done] or [error] event that [__anext__] processes without raising. *)
Definition terminal (event : Event) : bool :=
  is_kind "error" event
  || (is_kind "done" event && hashable (get event "reason")).

(** The usage reference never dangles. *)
Definition wf (self : Assembler) : Prop := is_Some (store self !! _usage self).

Definition is_toolcall (b : ContentBlock) : bool :=
  match b with ToolCallContent _ _ _ => true | TextContent _ => false end.

(** [json.loads] on the argument buffers of the examples below. *)
Definition sample_json_loads (s : string) : option pyval :=
  if bool_decide (s = "{}") then Some (VDict ∅)
  else if bool_decide (s = "[1]") then Some (VList [VInt 1])
  else None.

(** A run of [n] opening brackets. *)
Definition brackets (n : N) : string := N.iter n (String "["%char) "".

(** [json.loads] with its exceptions, on the buffers of the examples below;
    [brackets 5000] nests deeper than the default recursion limit. *)
Definition sample_loads (s : string) : exn + pyval :=
  if bool_decide (s = brackets 5000) then inl RecursionError
  else match sample_json_loads s with
       | Some v => inr v
       | None => inl JSONDecodeError
       end.

(** The built-in [str()] on the non-string values of the examples below. *)
Definition sample_str (v : pyval) : string :=
  match v with
  | VNone => "None"
  | VBool _ | VInt _ => str_of_int v
  | _ => "?"
  end.

Definition sample_model : Model.t := Model.mk "openai-chat" "openrouter" "m".

(** The events of the examples below, built as the providers build them. *)
Definition ev_text (delta : string) : Event :=
  {[ "type" := VStr "text_delta"; "delta" := VStr delta ]}.

Definition ev_toolcall (index : pyval) (id name arguments_delta : string)
    : Event :=
  {[ "type" := VStr "toolcall_delta"; "index" := index; "id" := VStr id;
     "name" := VStr name; "arguments_delta" := VStr arguments_delta ]}.

Definition ev_usage (usage : dict) : Event :=
  {[ "type" := VStr "usage"; "usage" := VDict usage ]}.

Definition ev_done (reason : string) : Event :=
  {[ "type" := VStr "done"; "reason" := VStr reason ]}.

Definition ev_error (err : pyval) : Event :=
  {[ "type" := VStr "error"; "error" := err ]}.

(** A new assembler in an empty store. *)
Definition sample_init : Assembler := init ∅ sample_model.

(** What a reader of the message sees: the fields of the dict, with the
    usage entry read through its reference. *)
Record MessageView := mkView {
  view_content : list ContentBlock;
  view_usage : option Usage;
  view_stop_reason : StopReason;
  view_error_message : option string;
  view_timestamp : Z
}.

Definition view (σ : gmap loc Usage) (m : AssistantMessage) : MessageView :=
  mkView (content m) (σ !! usage m) (stop_reason m) (error_message m)
    (timestamp m).

End EventStream.

(** ** providers/openai_compat.py: usage and cost *)

Module OpenAICompat.

Import EventStream.

(** [cost[k]] and [cost.get(k, 0.0)]; the five keys are always there. *)
Definition cost_get (c : UsageCost) (k : string) : float :=
  default 0%float (c !! k).

(** [if isinstance(v, (int, float)): cost[k] = float(v)]. *)
Definition set_if_number (k : string) (v : pyval) (c : UsageCost)
    : exn + UsageCost :=
  if is_number v then let* f := to_float v in inr (<[k := f]> c) else inr c.

Definition _usage_from_openai (usage : dict) : exn + Usage :=
  let prompt := get usage "prompt_tokens" in
  let completion := get usage "completion_tokens" in
  let total := get usage "total_tokens" in
  let prompt := if is_int prompt then prompt else VInt 0 in
  let completion := if is_int completion then completion else VInt 0 in
  let total :=
    if is_int total then total
    else VInt (int_value prompt + int_value completion) in
  let out : dict :=
    list_to_map
      [("input", prompt); ("output", completion); ("cache_read", VInt 0);
       ("cache_write", VInt 0); ("total_tokens", total)] in
  let cost_total := get usage "cost" in
  let cost_details := get usage "cost_details" in
  let cost := cost _zero_usage in
  let* cost :=
    match cost_details with
    | VDict cost_details =>
        let prompt_cost := get cost_details "upstream_inference_prompt_cost" in
        let completion_cost :=
          get cost_details "upstream_inference_completions_cost" in
        let* cost := set_if_number "input" prompt_cost cost in
        let* cost := set_if_number "output" completion_cost cost in
        inr (<["total" := (cost_get cost "input" + cost_get cost "output")%float]>
               cost)
    | _ => inr cost
    end in
  let* cost := set_if_number "total" cost_total cost in
  inr (mkUsage out cost).

(** [cost[k] = float(mapped[side]) / 1_000_000.0 * float(pricing)] under
    [isinstance(pricing, (int, float))]. *)
Definition price_side (k side : string) (mapped : dict) (pricing : pyval)
    (c : UsageCost) : exn + UsageCost :=
  if is_number pricing then
    let* tokens := to_float (get mapped side) in
    let* price := to_float pricing in
    inr (<[k := (tokens / 1000000 * price)%float]> c)
  else inr c.

(** The usage part of the frame loop of [OpenAICompatibleProvider.stream]:
    what is yielded under ["usage"] for the decoded frame [event], [None]
    when no usage event is yielded.  [pricing_in] and [pricing_out] are
    [opts.get("input_cost_per_1m")] and [opts.get("output_cost_per_1m")]. *)
Definition stream_usage (pricing_in pricing_out : pyval) (event : dict)
    : exn + option Usage :=
  match get event "usage" with
  | VDict usage_block =>
      if bool_decide (usage_block = ∅) then inr None
      else
        let* mapped := _usage_from_openai usage_block in
        let cost := cost mapped in
        let* cost :=
          if (cost_get cost "total" =? 0)%float
             && (is_number pricing_in || is_number pricing_out)
          then
            let* cost :=
              price_side "input" "input" (counters mapped) pricing_in cost in
            let* cost :=
              price_side "output" "output" (counters mapped) pricing_out cost in
            inr (<["total" := (cost_get cost "input" + cost_get cost "output")%float]>
                   cost)
          else inr cost in
        inr (Some (mkUsage (counters mapped) cost))
  | _ => inr None
  end.

(** *** Vocabulary of the statements *)

(** The token count the mapping keeps for the vendor key [k]: the vendor's
    value when it is an [int], else [0]. *)
Definition token_count (usage : dict) (k : string) : pyval :=
  if is_int (get usage k) then get usage k else VInt 0.

(** [float(v)] does not overflow, should [v] be a number. *)
Definition converts (v : pyval) : Prop :=
  is_number v = true → ∃ f, to_float v = inr f.

(** The vendor sent no cost details, or details whose numbers convert. *)
Definition details_convert (usage : dict) : Prop :=
  ∀ d, get usage "cost_details" = VDict d →
    converts (get d "upstream_inference_prompt_cost")
    ∧ converts (get d "upstream_inference_completions_cost").

(** Every cost key has an entry. *)
Definition full (c : UsageCost) : Prop :=
  ∀ ck, ck ∈ cost_keys → is_Some (c !! ck).

(** The event [{"type": "usage", "usage": mapped}]. *)
Definition usage_event (mapped : Usage) : Event :=
  {[ "type" := VStr "usage";
     "usage" := VDict (<["cost" := VDict (VFloat <$> cost mapped)]>
                         (counters mapped)) ]}.

End OpenAICompat.

(** ** providers/mock_provider.py, providers/register_builtins.py,
       __init__.py and stream.py *)

Module Entry.

Import EventStream.

(** A provider object: the mock, or an OpenAI-compatible one with the
    fields its [__init__] sets. *)
Inductive provider :=
  | MockChatProvider
  | OpenAICompatibleProvider (_base_url _provider_name : string)
      (_default_headers : gmap string string).

(** [s.rstrip("/")]: [s] without its trailing run of slashes. *)
Fixpoint rstrip_slash (s : string) : string :=
  match s with
  | EmptyString => EmptyString
  | String a s' =>
      match rstrip_slash s' with
      | EmptyString =>
          if bool_decide (a = "/"%char) then EmptyString
          else String a EmptyString
      | String b r => String a (String b r)
      end
  end.

(** [s.endswith(suffix)]. *)
Fixpoint endswith (s suffix : string) : bool :=
  bool_decide (s = suffix)
  || match s with
     | String _ s' => endswith s' suffix
     | EmptyString => false
     end.



(** [OpenAICompatibleProvider(base_url=.., provider_name=..)]. *)
Definition new_openai_provider (base_url provider_name : string) : provider :=
  OpenAICompatibleProvider (rstrip_slash base_url) provider_name ∅.

(** [os.getenv(name, default)] on the environment [env]. *)
Definition getenv (env : gmap string string) (name fallback : string)
    : string :=
  default fallback (env !! name).

(** [register_builtins]: the module-level flag [_registered] and the
    registry are threaded; an exception of [register_api_provider] leaves
    the registrations made before it and the flag unset. *)
Definition register_builtins (env : gmap string string)
    (st : gmap string provider * bool)
    : (gmap string provider * bool) * (exn + unit) :=
  let '(reg, _registered) := st in
  if _registered then (st, inr ())
  else
    match Registry.register_api_provider "openrouter-chat"
            (new_openai_provider
               (getenv env "OPENROUTER_BASE_URL" "https://openrouter.ai/api")
               "openrouter") reg with
    | (reg, inl x) => ((reg, false), inl x)
    | (reg, inr _) =>
        match Registry.register_api_provider "deepseek-chat"
                (new_openai_provider
                   (getenv env "DEEPSEEK_BASE_URL" "https://api.deepseek.com")
                   "deepseek") reg with
        | (reg, inl x) => ((reg, false), inl x)
        | (reg, inr _) =>
            match Registry.register_api_provider "qwen-chat"
                    (new_openai_provider
                       (getenv env "QWEN_BASE_URL"
                          "https://dashscope.aliyuncs.com/compatible-mode")
                       "qwen") reg with
            | (reg, inl x) => ((reg, false), inl x)
            | (reg, inr _) => ((reg, true), inr ())
            end
        end
    end.

Section Entry.

(** [repr()] of a [str]. *)
Variable repr : string → string.

(** [get_model] of [__init__.py]. *)
Definition get_model (provider model : string) : exn + Model.t :=
  if bool_decide (provider = "mock") then
    inr (Model.mk "mock-chat" "mock" model)
  else if bool_decide (provider = "openrouter") then
    inr (Model.mk "openrouter-chat" "openrouter" model)
  else if bool_decide (provider = "deepseek") then
    inr (Model.mk "deepseek-chat" "deepseek" model)
  else if bool_decide (provider = "qwen") then
    inr (Model.mk "qwen-chat" "qwen" model)
  else
    inl (ValueError
           ("Unknown provider: " +:+ repr provider
            +:+ ". Supported: mock, openrouter, deepseek, qwen.")).

(** [stream] of [stream.py], up to the call [provider.stream(..)]: the
    provider the call goes to, or the [ValueError]. *)
Definition stream (_PROVIDERS : gmap string provider) (model : Model.t)
    : exn + provider :=
  match Registry.get_api_provider (Model.api model) _PROVIDERS with
  | None =>
      inl (ValueError
             ("No API provider registered for api: "
              +:+ repr (Model.api model)))
  | Some provider => inr provider
  end.

End Entry.

(** [text[:n]] and [text[n:]]. *)
Fixpoint str_take (n : nat) (s : string) : string :=
  match n, s with
  | S n, String a s' => String a (str_take n s')
  | _, _ => EmptyString
  end.

Fixpoint str_drop (n : nat) (s : string) : string :=
  match n, s with
  | S n, String a s' => str_drop n s'
  | _, _ => s
  end.

(** The last message whose role is ["user"], the messages being scanned in
    reverse. *)
Definition last_user (messages : list dict) : option dict :=
  head (filter (λ msg, eq_str (get msg "role") "user" = true)
          (reverse messages)).

(** The text the mock provider streams. *)
Definition mock_text (messages : list dict) : string :=
  match last_user messages with
  | Some msg =>
      if negb (bool_decide (msg = ∅)) then
        match get msg "content" with
        | VStr content => "echo: " +:+ content
        | _ => "(no user message)"
        end
      else "(no user message)"
  | None => "(no user message)"
  end.

(** The events of [MockChatProvider.stream]'s generator for a context with
    the given messages. *)
Definition mock_events (model : Model.t) (messages : list dict)
    : list Event :=
  let text := mock_text messages in
  [ {[ "type" := VStr "start";
       "partial" :=
         VDict {[ "api" := VStr (Model.api model);
                  "provider" := VStr (Model.provider model);
                  "model" := VStr (Model.model model) ]} ]} ]
  ++ ((λ chunk, {[ "type" := VStr "text_delta"; "delta" := VStr chunk ]})
        <$> filter (λ chunk, truthy chunk = true)
              [str_take 5 text; str_drop 5 text])
  ++ [ {[ "type" := VStr "done"; "reason" := VStr "stop" ]} ].

(** The events of a stream with the clock reading at which each is
    processed. *)
Definition timed (clock : nat → Z) (events : list Event) : list (Z * Event) :=
  imap (λ i e, (clock i, e)) events.

End Entry.

(** * Properties *)

(** ** The provider registry *)

Module RegistryFacts.
Import Registry.

Section Facts.
Context {ApiProvider : Type}.
Implicit Types (reg : gmap string ApiProvider) (p q : ApiProvider).

Lemma register_taken api p reg :
  is_Some (reg !! api) →
  register_api_provider api p reg =
    (reg, inl (ValueError ("Provider already registered for api: " +:+ api))).
Proof. intros [q Hq]. unfold register_api_provider. by rewrite Hq. Qed.

Lemma register_fresh api p reg :
  reg !! api = None →
  register_api_provider api p reg = (<[api := p]> reg, inr ()).
Proof. intros Hn. unfold register_api_provider. by rewrite Hn. Qed.

(** A binding, once made, survives every later call. *)
Lemma register_keeps api' p' api q reg :
  reg !! api = Some q →
  (register_api_provider api' p' reg).1 !! api = Some q.
Proof.
  intros Hq. unfold register_api_provider.
  destruct (reg !! api') as [r|] eqn:Hr; simpl; [done|].
  rewrite lookup_insert_ne; [done|]. intros ->. congruence.
Qed.

Lemma register_all_keeps calls api q reg :
  reg !! api = Some q → register_all calls reg !! api = Some q.
Proof.
  revert reg. induction calls as [|[api' p'] calls IH]; intros reg Hq; [done|].
  apply IH. by apply register_keeps.
Qed.

(** C9: registering under an identifier that is already registered raises
    [ValueError] and leaves the registry as it was; registering under a free
    identifier succeeds and stores the provider; a call succeeds only when the
    identifier was free; and whatever provider an identifier is bound to stays
    bound to it through any further run of registration calls, so no
    identifier ever gets a second provider. *)
Theorem register_api_provider_unique api p reg :
  (is_Some (reg !! api) →
     ∃ msg, register_api_provider api p reg = (reg, inl (ValueError msg)))
  ∧ (reg !! api = None →
       register_api_provider api p reg = (<[api := p]> reg, inr ())
       ∧ get_api_provider api (register_api_provider api p reg).1 = Some p)
  ∧ ((register_api_provider api p reg).2 = inr () ↔ reg !! api = None)
  ∧ (∀ q calls, reg !! api = Some q →
       get_api_provider api (register_all calls reg) = Some q).
Proof.
  repeat split.
  - intros Hs. eexists. by apply register_taken.
  - by apply register_fresh.
  - rewrite register_fresh by done. apply lookup_insert_eq.
  - unfold register_api_provider. by destruct (reg !! api).
  - intros Hn. by rewrite register_fresh.
  - intros q calls Hq. by apply register_all_keeps.
Qed.

(** X7: registration is first-wins.  After any run of registration calls
    an identifier is bound to the provider it had before the run, if it had
    one, and otherwise to the first provider the run offered for it; after
    [clear_registry_for_tests] no identifier is bound and the first offer
    wins again. *)
Theorem register_all_first_wins api calls reg :
  get_api_provider api (register_all calls reg)
  = match reg !! api with
    | Some q => Some q
    | None => head (offered api calls)
    end
  ∧ get_api_provider api (clear_registry_for_tests reg) = None
  ∧ get_api_provider api (register_all calls (clear_registry_for_tests reg))
    = head (offered api calls).
Proof.
  assert (∀ reg, get_api_provider api (register_all calls reg)
                 = match reg !! api with
                   | Some q => Some q
                   | None => head (offered api calls)
                   end) as Hgen.
  { clear reg. induction calls as [|[api' p'] calls IH]; intros reg.
    - unfold get_api_provider. simpl. by destruct (reg !! api).
    - change (register_all ((api', p') :: calls) reg)
        with (register_all calls (register_api_provider api' p' reg).1).
      rewrite IH. unfold offered. rewrite filter_cons. simpl.
      unfold register_api_provider.
      destruct (reg !! api') as [r|] eqn:Hr; simpl.
      + destruct (reg !! api) as [q|] eqn:Hq; [done|].
        rewrite decide_False; [done|]. intros ->. congruence.
      + destruct (decide (api' = api)) as [->|Hne].
        * by rewrite lookup_insert_eq, Hr.
        * rewrite lookup_insert_ne by done. done. }
  split; [apply Hgen|]. split; [done|].
  rewrite Hgen. done.
Qed.

End Facts.

Lemma register_api_provider_unique_witness :
  (∃ msg, register_api_provider "openai-chat" 2%nat {["openai-chat" := 1%nat]}
          = ({["openai-chat" := 1%nat]}, inl (ValueError msg)))
  ∧ register_api_provider "openai-chat" 2%nat (∅ : gmap string nat)
    = ({["openai-chat" := 2%nat]}, inr ())
  ∧ get_api_provider "openai-chat"
      (register_all [("mock", 3%nat); ("openai-chat", 2%nat)]
         {["openai-chat" := 1%nat]}) = Some 1%nat.
Proof.
  split; [|split].
  - apply (register_api_provider_unique "openai-chat" 2%nat
             {["openai-chat" := 1%nat]}).
    by exists 1%nat.
  - apply (register_api_provider_unique "openai-chat" 2%nat ∅). done.
  - apply (register_api_provider_unique "openai-chat" 2%nat
             {["openai-chat" := 1%nat]}). done.
Defined.

End RegistryFacts.

(** ** The assembler *)

Module EventStreamFacts.
Import EventStream.

Lemma eq_str_true v lit : eq_str v lit = true → v = VStr lit.
Proof.
  destruct v; simpl; try discriminate.
  intros H. apply bool_decide_eq_true in H. by subst.
Qed.



Section Facts.
Variable json_loads : string → option pyval.
Variable builtin_str : pyval → string.

#[local] Abbreviation anext := (anext json_loads builtin_str).
#[local] Abbreviation _assemble_final := (_assemble_final json_loads).
#[local] Abbreviation toolcall_block := (toolcall_block json_loads).
#[local] Abbreviation toolcall_blocks := (toolcall_blocks json_loads).

(** *** [__anext__], one event kind at a time *)

Lemma anext_text_delta now self event :
  get event "type" = VStr "text_delta" →
  anext now self event =
    match get event "delta" with
    | VStr delta => (set_text (_text self +:+ delta) self, Returned event)
    | _ => (self, Returned event)
    end.
Proof. intros H. unfold EventStream.anext. by rewrite H. Qed.

Lemma anext_toolcall_delta now self event :
  get event "type" = VStr "toolcall_delta" →
  anext now self event =
    let index := get event "index" in
    if negb (is_int index) then (self, Returned event)
    else
      let '(key, call) :=
        default (index, new_call) (_tool_calls self !! int_value index) in
      (set_tool_calls
         (<[int_value index := (key, update_call event call)]>
            (_tool_calls self)) self,
       Returned event).
Proof. intros H. unfold EventStream.anext. by rewrite H. Qed.

Lemma anext_done now self event :
  get event "type" = VStr "done" →
  anext now self event =
    let reason := get event "reason" in
    if negb (hashable reason) then (self, Raised TypeError)
    else
      let self :=
        set_stop_reason (Some (default Stop (known_reason reason))) self in
      (set_final (Some (_assemble_final now self)) self, Returned event).
Proof. intros H. unfold EventStream.anext. by rewrite H. Qed.

Lemma anext_usage now self event :
  get event "type" = VStr "usage" →
  anext now self event =
    match get event "usage", store self !! _usage self with
    | VDict usage, Some u =>
        (set_store (<[_usage self := (merge_usage usage u).1]> (store self))
           self,
         match (merge_usage usage u).2 with
         | Some x => Raised x
         | None => Returned event
         end)
    | _, _ => (self, Returned event)
    end.
Proof.
  intros H. unfold EventStream.anext. rewrite H. simpl.
  destruct (get event "usage"); try done.
  destruct (store self !! _usage self); [|done].
  by destruct (merge_usage d u).
Qed.

Lemma anext_error now self event :
  get event "type" = VStr "error" →
  anext now self event =
    let err := get event "error" in
    let self :=
      set_error_message
        (Some (match err with
               | VNone => "unknown error"
               | _ => py_str builtin_str err
               end)) self in
    let self := set_stop_reason (Some Error) self in
    (set_final (Some (_assemble_final now self)) self, Returned event).
Proof. intros H. unfold EventStream.anext. by rewrite H. Qed.

Lemma anext_other now self event :
  eq_str (get event "type") "text_delta" = false →
  eq_str (get event "type") "toolcall_delta" = false →
  eq_str (get event "type") "done" = false →
  eq_str (get event "type") "usage" = false →
  eq_str (get event "type") "error" = false →
  anext now self event = (self, Returned event).
Proof. intros H1 H2 H3 H4 H5. unfold EventStream.anext. by rewrite H1, H2, H3, H4, H5. Qed.

(** C10: a [toolcall_delta] event whose ["index"] is missing or is not an
    [int] is handed back as it is and the assembler is left exactly as it
    was: no accumulator is created or touched, and the text buffer, the usage
    dict, the stop reason, the error message and the cached message are the
    same. *)
Theorem toolcall_delta_without_index now self event :
  get event "type" = VStr "toolcall_delta" →
  is_int (get event "index") = false →
  anext now self event = (self, Returned event).
Proof. intros Hty Hidx. rewrite anext_toolcall_delta by done. simpl. by rewrite Hidx. Qed.

(** *** Finalization *)

Lemma sorted_keys_elem (calls : gmap Z (pyval * Call)) i :
  i ∈ sorted_keys calls ↔ is_Some (calls !! i).
Proof.
  unfold sorted_keys. rewrite merge_sort_Permutation, list_elem_of_fmap.
  split.
  - intros [[k v] [-> Hkv]]. apply elem_of_map_to_list in Hkv. by exists v.
  - intros [v Hv]. exists (i, v). split; [done|]. by apply elem_of_map_to_list.
Qed.

Lemma sorted_keys_NoDup (calls : gmap Z (pyval * Call)) :
  NoDup (sorted_keys calls).
Proof.
  unfold sorted_keys. rewrite merge_sort_Permutation.
  apply NoDup_fst_map_to_list.
Qed.

Lemma StronglySorted_le_lt (l : list Z) :
  StronglySorted Z.le l → NoDup l → StronglySorted Z.lt l.
Proof.
  induction 1 as [|x l Hs IH Hall]; intros Hnd; [constructor|].
  apply NoDup_cons in Hnd as [Hx Hnd]. constructor; [by apply IH|].
  rewrite Forall_forall in Hall |- *. intros y Hy.
  assert (x ≠ y) by (intros ->; done).
  specialize (Hall y Hy). lia.
Qed.

Lemma sorted_keys_ascending (calls : gmap Z (pyval * Call)) :
  StronglySorted Z.lt (sorted_keys calls).
Proof.
  apply StronglySorted_le_lt; [|apply sorted_keys_NoDup].
  apply (StronglySorted_merge_sort Z.le).
Qed.

Lemma omap_Forall2 {A B} (f : A → option B) (l : list A) :
  Forall (λ x, is_Some (f x)) l → Forall2 (λ x y, f x = Some y) l (omap f l).
Proof.
  induction 1 as [|x l [y Hy] _ IH]; simpl; [constructor|].
  rewrite Hy. by constructor.
Qed.

(** The blocks follow the sorted keys one for one. *)
Lemma toolcall_blocks_keys (calls : gmap Z (pyval * Call)) :
  Forall2
    (λ index b, ∃ key call,
       calls !! index = Some (key, call) ∧ b = toolcall_block key call)
    (sorted_keys calls) (toolcall_blocks calls).
Proof.
  unfold EventStream.toolcall_blocks.
  eapply Forall2_impl.
  - apply omap_Forall2. apply Forall_forall. intros i Hi.
    apply sorted_keys_elem in Hi as [kc Hkc]. rewrite Hkc. by eexists.
  - intros i b Hb. simpl in Hb.
    destruct (calls !! i) as [[key call]|]; [|done].
    exists key, call. split; [done|]. by injection Hb as <-.
Qed.

Lemma toolcall_blocks_elem (calls : gmap Z (pyval * Call)) index key call :
  calls !! index = Some (key, call) →
  toolcall_block key call ∈ toolcall_blocks calls.
Proof.
  intros Hc. unfold EventStream.toolcall_blocks. apply list_elem_of_omap.
  exists index. split; [|by rewrite Hc].
  apply sorted_keys_elem. by eexists.
Qed.

Lemma toolcall_blocks_all (calls : gmap Z (pyval * Call)) :
  Forall (λ b, is_toolcall b = true) (toolcall_blocks calls).
Proof.
  apply Forall_forall. intros b Hb.
  unfold EventStream.toolcall_blocks in Hb.
  apply list_elem_of_omap in Hb as (i & _ & Hb).
  destruct (calls !! i) as [[key call]|]; [|done].
  by injection Hb as <-.
Qed.

Lemma toolcall_blocks_nil (calls : gmap Z (pyval * Call)) :
  toolcall_blocks calls = [] ↔ calls = ∅.
Proof.
  split.
  - intros Hnil. apply map_empty. intros i.
    destruct (calls !! i) as [[key call]|] eqn:Hc; [|done].
    apply toolcall_blocks_elem in Hc. rewrite Hnil in Hc.
    by apply elem_of_nil in Hc.
  - intros ->. done.
Qed.

Lemma content_assemble_final now self :
  content (_assemble_final now self) =
    (if truthy (_text self) then [TextContent (_text self)] else [])
    ++ toolcall_blocks (_tool_calls self).
Proof. done. Qed.

(** A tool-call block in the content means there is an accumulator. *)
Lemma content_toolcall now self b :
  b ∈ content (_assemble_final now self) → is_toolcall b = true →
  _tool_calls self ≠ ∅.
Proof.
  rewrite content_assemble_final. intros Hb Ht Hemp.
  rewrite Hemp in Hb. apply elem_of_app in Hb as [Hb|Hb].
  - destruct (truthy (_text self)).
    + apply list_elem_of_singleton in Hb. by subst.
    + by apply elem_of_nil in Hb.
  - by apply elem_of_nil in Hb.
Qed.

(** *** What each call leaves alone *)

(** Every event falls into one of the six cases of [__anext__]. *)
Lemma anext_kinds event :
  get event "type" = VStr "text_delta"
  ∨ get event "type" = VStr "toolcall_delta"
  ∨ get event "type" = VStr "done"
  ∨ get event "type" = VStr "usage"
  ∨ get event "type" = VStr "error"
  ∨ (is_kind "text_delta" event = false
     ∧ is_kind "toolcall_delta" event = false
     ∧ is_kind "done" event = false
     ∧ is_kind "usage" event = false
     ∧ is_kind "error" event = false).
Proof.
  unfold is_kind.
  destruct (eq_str (get event "type") "text_delta") eqn:H1;
    [left; by apply eq_str_true|right].
  destruct (eq_str (get event "type") "toolcall_delta") eqn:H2;
    [left; by apply eq_str_true|right].
  destruct (eq_str (get event "type") "done") eqn:H3;
    [left; by apply eq_str_true|right].
  destruct (eq_str (get event "type") "usage") eqn:H4;
    [left; by apply eq_str_true|right].
  destruct (eq_str (get event "type") "error") eqn:H5;
    [left; by apply eq_str_true|right].
  done.
Qed.

(** Splits a goal about [anext now self event] along the six cases, drops
    the cases the hypotheses on the kind rule out, and opens the body of
    the case that is left. *)
Ltac anext_cases now self event :=
  let H := fresh "Hkind" in
  destruct (anext_kinds event) as [H|[H|[H|[H|[H|H]]]]];
  [ rewrite (anext_text_delta now self event H)
  | rewrite (anext_toolcall_delta now self event H)
  | rewrite (anext_done now self event H)
  | rewrite (anext_usage now self event H)
  | rewrite (anext_error now self event H)
  | destruct H as (?&?&?&?&?); rewrite (anext_other now self event) by done ];
  try match goal with
      | Hk : is_kind _ event = false |- _ =>
          unfold is_kind in Hk; rewrite H in Hk; vm_compute in Hk;
          discriminate Hk
      end;
  cbv zeta;
  repeat match goal with
         | |- context [match get event ?k with _ => _ end] =>
             destruct (get event k)
         | |- context [match store self !! ?k with _ => _ end] =>
             destruct (store self !! k)
         | |- context [let '(_, _) := default ?d ?o in _] =>
             destruct (default d o)
         | |- context [if negb ?b then _ else _] => destruct (negb b)
         end;
  try reflexivity.

Lemma anext_usage_ref now self event :
  _usage (anext now self event).1 = _usage self.
Proof. anext_cases now self event. Qed.

Lemma anext_model now self event :
  _model (anext now self event).1 = _model self.
Proof. anext_cases now self event. Qed.

Lemma anext_frame_text now self event :
  is_kind "text_delta" event = false →
  _text (anext now self event).1 = _text self.
Proof. intros Hk. anext_cases now self event. Qed.

Lemma anext_frame_tool_calls now self event :
  is_kind "toolcall_delta" event = false →
  _tool_calls (anext now self event).1 = _tool_calls self.
Proof. intros Hk. anext_cases now self event. Qed.

Lemma anext_frame_store now self event :
  is_kind "usage" event = false →
  store (anext now self event).1 = store self.
Proof. intros Hk. anext_cases now self event. Qed.

Lemma anext_frame_final now self event :
  is_kind "done" event = false → is_kind "error" event = false →
  _final (anext now self event).1 = _final self.
Proof. intros Hd He. anext_cases now self event. Qed.

Lemma anext_frame_error_message now self event :
  is_kind "error" event = false →
  _error_message (anext now self event).1 = _error_message self.
Proof. intros He. anext_cases now self event. Qed.

Lemma init_wf σ model : wf (init σ model).
Proof. unfold wf, init; simpl. rewrite lookup_insert_eq. by eexists. Qed.

Lemma anext_wf now self event : wf self → wf (anext now self event).1.
Proof.
  unfold wf. intros Hwf.
  destruct (is_kind "usage" event) eqn:Hk.
  - apply eq_str_true in Hk. rewrite anext_usage by done.
    destruct (get event "usage"); try done.
    destruct (store self !! _usage self); [|done].
    simpl. rewrite lookup_insert_eq. by eexists.
  - rewrite anext_frame_store, anext_usage_ref by done. done.
Qed.

(** *** Terminal events *)

(** A terminal event caches the message assembled from the buffers as they
    stand; the buffers themselves are not touched. *)
Lemma anext_terminal now self event :
  terminal event = true →
  ∃ m, anext now self event = ((anext now self event).1, Returned event)
    ∧ _final (anext now self event).1 = Some m
    ∧ content m = content (_assemble_final now self)
    ∧ usage m = _usage self
    ∧ timestamp m = now
    ∧ _tool_calls (anext now self event).1 = _tool_calls self
    ∧ _text (anext now self event).1 = _text self
    ∧ store (anext now self event).1 = store self.
Proof.
  unfold terminal, is_kind. intros Ht.
  destruct (eq_str (get event "type") "error") eqn:He.
  - apply eq_str_true in He. rewrite anext_error by done.
    eexists. repeat split.
  - simpl in Ht. apply andb_true_iff in Ht as [Hd Hh].
    apply eq_str_true in Hd. rewrite anext_done by done.
    simpl. rewrite Hh. simpl. eexists. repeat split.
Qed.

(** *** Runs *)

Lemma steps_snoc self events now event :
  steps json_loads builtin_str self (events ++ [(now, event)]) =
    (anext now (steps json_loads builtin_str self events) event).1.
Proof. unfold steps. by rewrite foldl_snoc. Qed.

Lemma steps_wf self events :
  wf self → wf (steps json_loads builtin_str self events).
Proof.
  induction events as [|[now event] events IH] using rev_ind; [done|].
  intros Hwf. rewrite steps_snoc. by apply anext_wf, IH.
Qed.

Lemma steps_usage_ref self events :
  _usage (steps json_loads builtin_str self events) = _usage self.
Proof.
  induction events as [|[now event] events IH] using rev_ind; [done|].
  by rewrite steps_snoc, anext_usage_ref.
Qed.

(** [__anext__] raises exactly what [raises] says. *)
Lemma anext_outcome now self event :
  wf self →
  (anext now self event).2 =
    match raises event with Some x => Raised x | None => Returned event end.
Proof.
  intros [u Hu]. unfold raises.
  destruct (is_kind "done" event) eqn:Hd.
  { apply eq_str_true in Hd. rewrite anext_done by done. simpl.
    by destruct (hashable (get event "reason")). }
  destruct (is_kind "usage" event) eqn:Hus.
  { apply eq_str_true in Hus. rewrite anext_usage by done. rewrite Hu.
    destruct (get event "usage") as [| | | | | |usage]; try done. simpl.
    unfold merge_usage.
    destruct (get usage "cost") as [| | | | | |cost]; try done.
    assert (∀ keys c c', (merge_cost cost keys c).2 = (merge_cost cost keys c').2)
      as Hind.
    { induction keys as [|k keys IH]; intros c c'; simpl; [done|].
      destruct (is_number (get cost k)); [|apply IH].
      destruct (to_float (get cost k)); [done|apply IH]. }
    specialize (Hind cost_keys (Types.cost u) (Types.cost _zero_usage)).
    destruct (merge_cost cost cost_keys (Types.cost u)) as [k1 r1].
    destruct (merge_cost cost cost_keys (Types.cost _zero_usage)) as [k2 r2].
    simpl in *. by subst. }
  clear Hu. anext_cases now self event.
Qed.

(** Without exceptions, [async for] goes through the whole iterator. *)
Lemma drain_steps self events :
  wf self → Forall (λ te, raises te.2 = None) events →
  drain json_loads builtin_str self events =
    (steps json_loads builtin_str self events, [], None).
Proof.
  intros Hwf Hall. revert self Hwf.
  induction Hall as [|[now event] events Hr _ IH]; intros self Hwf; [done|].
  simpl. pose proof (anext_outcome now self event Hwf) as Ho.
  simpl in Hr. rewrite Hr in Ho.
  destruct (anext now self event) as [self' o] eqn:Ha. simpl in Ho. subst o.
  replace self' with (anext now self event).1 by by rewrite Ha.
  rewrite IH by by apply anext_wf. unfold steps. simpl. by rewrite Ha.
Qed.

(** *** Stop reason, malformed arguments, block order *)

(** C3: when finalization emits at least one tool-call block and the
    recorded stop reason is [stop] (recorded as such, or never set), the
    message's stop reason is [tool_use]; a recorded [length], [error] or
    [aborted] is kept as it is, tool-call blocks or not. *)
Theorem stop_reason_tool_use now self b :
  b ∈ content (_assemble_final now self) → is_toolcall b = true →
  (default Stop (_stop_reason self) = Stop →
     stop_reason (_assemble_final now self) = ToolUse)
  ∧ (∀ r, _stop_reason self = Some r → r = Length ∨ r = Error ∨ r = Aborted →
       stop_reason (_assemble_final now self) = r).
Proof.
  intros Hb Ht. pose proof (content_toolcall _ _ _ Hb Ht) as Hne.
  unfold EventStream._assemble_final; simpl.
  rewrite bool_decide_eq_false_2 by done. split.
  - by intros ->.
  - intros r -> [->|[->| ->]]; done.
Qed.

(** The same seen from the [done] event that triggers finalization. *)
Lemma done_stop_reason now self event :
  get event "type" = VStr "done" → hashable (get event "reason") = true →
  _tool_calls self ≠ ∅ →
  ∃ m, _final (anext now self event).1 = Some m
    ∧ stop_reason m =
        match known_reason (get event "reason") with
        | Some Stop | None => ToolUse
        | Some r => r
        end.
Proof.
  intros Hty Hh Hne. rewrite anext_done by done. simpl. rewrite Hh. simpl.
  eexists. split; [done|]. unfold EventStream._assemble_final. simpl.
  rewrite bool_decide_eq_false_2 by done.
  by destruct (known_reason (get event "reason")) as [[]|].
Qed.

(** With [json.loads] read as returning a value or raising
    [JSONDecodeError]: for an accumulator whose argument buffer it rejects,
    or parses to something that is not a dict, the block emitted has the
    empty dict as arguments and the accumulated id and name, each replaced
    by its fallback (["toolcall:<index>"], ["unknown"]) only when it is
    empty; a terminal event caches a message with that block in it. *)
Lemma malformed_arguments_empty now self index key call :
  _tool_calls self !! index = Some (key, call) →
  json_loads (call_arguments_json call) = None
  ∨ (∃ v, json_loads (call_arguments_json call) = Some v ∧ ∀ d, v ≠ VDict d) →
  let block :=
    ToolCallContent
      (if truthy (call_id call) then call_id call
       else "toolcall:" +:+ str_of_int key)
      (if truthy (call_name call) then call_name call else "unknown") ∅ in
  block ∈ content (_assemble_final now self)
  ∧ ∀ event, terminal event = true →
      ∃ m, anext now self event = ((anext now self event).1, Returned event)
        ∧ _final (anext now self event).1 = Some m
        ∧ block ∈ content m.
Proof.
  intros Hc Hbad block.
  assert (toolcall_block key call = block) as Hblock.
  { unfold block, EventStream.toolcall_block, parse_arguments. f_equal.
    destruct (truthy (strip (call_arguments_json call))); [|done].
    destruct Hbad as [-> | (v & -> & Hv)]; [done|].
    destruct v; try done. by destruct (Hv d). }
  assert (block ∈ content (_assemble_final now self)) as Hin.
  { rewrite content_assemble_final, elem_of_app. right.
    rewrite <- Hblock. by eapply toolcall_blocks_elem. }
  split; [done|]. intros event Ht.
  destruct (anext_terminal now self event Ht) as (m & Ha & Hf & Hcont & _).
  exists m. repeat split; [done..|]. by rewrite Hcont.
Qed.

(** The content is the optional text block followed by the tool-call
    blocks, one per accumulator, in strictly ascending order of index. *)
Lemma assemble_final_blocks now self :
  ∃ indices blocks,
    content (_assemble_final now self) =
      (if truthy (_text self) then [TextContent (_text self)] else [])
      ++ blocks
    ∧ Forall2
        (λ index b, ∃ key call,
           _tool_calls self !! index = Some (key, call)
           ∧ b = toolcall_block key call)
        indices blocks
    ∧ StronglySorted Z.lt indices
    ∧ ∀ i, i ∈ indices ↔ is_Some (_tool_calls self !! i).
Proof.
  exists (sorted_keys (_tool_calls self)), (toolcall_blocks (_tool_calls self)).
  split; [apply content_assemble_final|].
  split; [apply toolcall_blocks_keys|].
  split; [apply sorted_keys_ascending|].
  apply sorted_keys_elem.
Qed.

(** *** Tool-call accumulators along a run *)

Lemma update_call_id event call :
  call_id (update_call event call) =
    default (call_id call) (nonempty_str (get event "id")).
Proof.
  unfold update_call.
  destruct (nonempty_str (get event "id")),
    (nonempty_str (get event "name")),
    (nonempty_str (get event "arguments_delta")); done.
Qed.

Lemma update_call_name event call :
  call_name (update_call event call) =
    default (call_name call) (nonempty_str (get event "name")).
Proof.
  unfold update_call.
  destruct (nonempty_str (get event "id")),
    (nonempty_str (get event "name")),
    (nonempty_str (get event "arguments_delta")); done.
Qed.

(** The accumulator of the index [i] after one call. *)
Lemma anext_tool_calls_lookup now self event i :
  _tool_calls (anext now self event).1 !! i =
    if is_delta_for i event then
      let kc := default (get event "index", new_call) (_tool_calls self !! i) in
      Some (kc.1, update_call event kc.2)
    else _tool_calls self !! i.
Proof.
  unfold is_delta_for.
  destruct (is_kind "toolcall_delta" event) eqn:Hk; simpl.
  2: { by rewrite anext_frame_tool_calls. }
  apply eq_str_true in Hk. rewrite anext_toolcall_delta by done. simpl.
  destruct (is_int (get event "index")) eqn:Hi; simpl; [|done].
  case_bool_decide as Heq.
  - rewrite Heq.
    destruct (default (get event "index", new_call) (_tool_calls self !! i))
      as [key call].
    simpl. by rewrite lookup_insert_eq.
  - destruct (default (get event "index", new_call)
                (_tool_calls self !! int_value (get event "index")))
      as [key call].
    simpl. by rewrite lookup_insert_ne.
Qed.

Lemma received_snoc field i events event :
  received field i (events ++ [event]) =
    received field i events
    ++ option_list
         (if is_delta_for i event then nonempty_str (get event field)
          else None).
Proof.
  unfold received. rewrite omap_app. simpl.
  by destruct (is_delta_for i event), (nonempty_str (get event field)).
Qed.

Lemma last_app_option_list {A} (l : list A) (o : option A) :
  last (l ++ option_list o) = match o with Some x => Some x | None => last l end.
Proof.
  destruct o; simpl; [apply last_snoc|]. by rewrite app_nil_r.
Qed.

(** Along any run from a new assembler: the index [i] has an accumulator
    exactly when a [toolcall_delta] event for [i] has arrived; its id and its
    name are the last non-empty ones received for [i] (the empty string when
    none was); its key object is an [int] of value [i]. *)
Lemma steps_accumulator σ model events i :
  let self := steps json_loads builtin_str (init σ model) events in
  (is_Some (_tool_calls self !! i)
   ↔ Exists (λ e, is_delta_for i e = true) events.*2)
  ∧ ∀ key call, _tool_calls self !! i = Some (key, call) →
      call_id call = default "" (last (received "id" i events.*2))
      ∧ call_name call = default "" (last (received "name" i events.*2))
      ∧ is_int key = true ∧ int_value key = i.
Proof.
  induction events as [|[now event] events IH] using rev_ind; simpl.
  { split.
    - rewrite Exists_nil. split; [|done]. intros [x Hx]. done.
    - intros key call Hc. done. }
  destruct IH as [IHs IHc]. rewrite steps_snoc.
  rewrite fmap_app. simpl.
  rewrite Exists_app, !received_snoc, !last_app_option_list.
  rewrite Exists_cons, Exists_nil, anext_tool_calls_lookup.
  destruct (is_delta_for i event) eqn:Hd.
  - split; [split; [tauto|by eexists]|].
    intros key call [= <- <-].
    rewrite update_call_id, update_call_name.
    destruct (_tool_calls (steps json_loads builtin_str (init σ model) events) !! i)
      as [[key0 call0]|] eqn:Hc; simpl.
    + destruct (IHc key0 call0 eq_refl) as (Hid & Hname & Hkey & Hval).
      rewrite Hid, Hname.
      by destruct (nonempty_str (get event "id")),
        (nonempty_str (get event "name")).
    + assert (received "id" i events.*2 = [] ∧ received "name" i events.*2 = [])
        as [-> ->].
      { assert (¬ Exists (λ e, is_delta_for i e = true) events.*2) as Hno.
        { intros He. apply IHs in He as [? ?]. done. }
        apply not_Exists_Forall in Hno; [|intros e; apply _].
        unfold received. clear -Hno.
        induction Hno as [|e l He _ [IH1 IH2]]; [done|]. simpl in *.
        destruct (is_delta_for i e); [done|]. done. }
      simpl. unfold is_delta_for in Hd.
      apply andb_true_iff in Hd as [Hd Hv]. apply andb_true_iff in Hd as [_ Hi].
      apply bool_decide_eq_true in Hv.
      by destruct (nonempty_str (get event "id")),
        (nonempty_str (get event "name")).
  - split.
    + rewrite IHs. split; [tauto|]. intros [?|[?|[]]]; [done|congruence].
    + intros key call Hc. apply IHc in Hc. done.
Qed.



(** *** Block order along a run *)

Lemma string_app_nil_r (s : string) : s +:+ "" = s.
Proof.
  induction s as [|c s IH]; [done|].
  change (String c (s +:+ "") = String c s). by rewrite IH.
Qed.

Lemma string_app_assoc (s1 s2 s3 : string) :
  (s1 +:+ s2) +:+ s3 = s1 +:+ (s2 +:+ s3).
Proof.
  induction s1 as [|c s1 IH]; [done|].
  change (String c ((s1 +:+ s2) +:+ s3) = String c (s1 +:+ (s2 +:+ s3))).
  by rewrite IH.
Qed.

Lemma join_snoc l s : join (l ++ [s]) = join l +:+ s.
Proof.
  induction l as [|x l IH]; simpl.
  - apply string_app_nil_r.
  - by rewrite IH, string_app_assoc.
Qed.

(** The text buffer after one call. *)
Lemma anext_text now self event :
  _text (anext now self event).1 =
    _text self +:+ join (text_deltas [event]).
Proof.
  unfold text_deltas. simpl.
  destruct (is_kind "text_delta" event) eqn:Hk.
  - apply eq_str_true in Hk. rewrite anext_text_delta by done.
    destruct (get event "delta"); simpl;
      rewrite ?string_app_nil_r; done.
  - rewrite anext_frame_text by done. simpl. by rewrite string_app_nil_r.
Qed.

(** Along a run from a new assembler the text buffer is the concatenation
    of the text fragments received, in arrival order. *)
Lemma steps_text σ model events :
  _text (steps json_loads builtin_str (init σ model) events)
  = join (text_deltas events.*2).
Proof.
  induction events as [|[now event] events IH] using rev_ind; [done|].
  rewrite steps_snoc, anext_text, IH, fmap_app. simpl.
  unfold text_deltas. rewrite omap_app. simpl.
  destruct (is_kind "text_delta" event); simpl;
    [|by rewrite string_app_nil_r, app_nil_r].
  destruct (get event "delta"); simpl;
    rewrite ?string_app_nil_r, ?app_nil_r; try done.
  by rewrite join_snoc.
Qed.



(** *** The usage accumulator *)

Lemma merge_counters_lookup usage c k :
  merge_counters usage c !! k =
    match counter_field usage k with Some v => Some v | None => c !! k end.
Proof.
  unfold merge_counters, counter_field.
  generalize int_keys as keys. intros keys. revert c.
  induction keys as [|k' keys IH] using rev_ind; intros c; [done|].
  rewrite foldl_snoc. simpl.
  destruct (decide (k = k')) as [<-|Hne].
  - rewrite (bool_decide_eq_true_2 (k ∈ keys ++ [k]))
      by (rewrite elem_of_app, list_elem_of_singleton; tauto).
    simpl. destruct (is_int (get usage k)) eqn:Hi.
    + by rewrite lookup_insert_eq.
    + rewrite IH. by rewrite andb_false_r.
  - assert (bool_decide (k ∈ keys ++ [k']) = bool_decide (k ∈ keys)) as ->.
    { apply bool_decide_ext. rewrite elem_of_app, list_elem_of_singleton.
      tauto. }
    destruct (is_int (get usage k')); [|apply IH].
    rewrite lookup_insert_ne by done. apply IH.
Qed.

Lemma merge_cost_raise_indep cost keys c c' :
  (merge_cost cost keys c).2 = (merge_cost cost keys c').2.
Proof.
  revert c c'. induction keys as [|k keys IH]; intros c c'; simpl; [done|].
  destruct (is_number (get cost k)); [|apply IH].
  destruct (to_float (get cost k)); [done|apply IH].
Qed.

Lemma merge_cost_lookup cost keys c ck :
  NoDup keys → (merge_cost cost keys c).2 = None →
  (merge_cost cost keys c).1 !! ck =
    match
      (if bool_decide (ck ∈ keys) && is_number (get cost ck) then
         match to_float (get cost ck) with inr f => Some f | inl _ => None end
       else None)
    with Some f => Some f | None => c !! ck end.
Proof.
  intros Hnd. revert c.
  induction Hnd as [|k keys Hk Hnd IH]; intros c Hr; simpl in *; [done|].
  destruct (decide (ck = k)) as [->|Hne].
  - rewrite (bool_decide_eq_true_2 (k ∈ k :: keys)) by apply list_elem_of_here.
    simpl.
    destruct (is_number (get cost k)) eqn:Hn.
    + destruct (to_float (get cost k)) as [x|f]; [done|].
      rewrite IH by done. rewrite bool_decide_eq_false_2 by done. simpl.
      by rewrite lookup_insert_eq.
    + rewrite IH by done. by rewrite andb_false_r.
  - assert (bool_decide (ck ∈ k :: keys) = bool_decide (ck ∈ keys)) as ->.
    { apply bool_decide_ext. rewrite elem_of_cons. tauto. }
    destruct (is_number (get cost k)).
    + destruct (to_float (get cost k)) as [x|f]; [done|].
      rewrite IH by done. by rewrite lookup_insert_ne.
    + by rewrite IH.
Qed.

Lemma cost_keys_NoDup : NoDup cost_keys.
Proof. by apply (bool_decide_unpack _). Qed.

Lemma merge_usage_raise_indep usage u u' :
  (merge_usage usage u).2 = (merge_usage usage u').2.
Proof.
  unfold merge_usage. destruct (get usage "cost") as [| | | | | |cd]; try done.
  pose proof (merge_cost_raise_indep cd cost_keys (cost u) (cost u')) as H.
  destruct (merge_cost cd cost_keys (cost u)),
    (merge_cost cd cost_keys (cost u')). done.
Qed.

Lemma merge_usage_counters usage u k :
  counters (merge_usage usage u).1 !! k =
    match counter_field usage k with
    | Some v => Some v
    | None => counters u !! k
    end.
Proof.
  unfold merge_usage.
  destruct (get usage "cost") as [| | | | | |cd];
    try apply merge_counters_lookup.
  destruct (merge_cost cd cost_keys (cost u)). apply merge_counters_lookup.
Qed.

Lemma merge_usage_cost usage u ck :
  (merge_usage usage u).2 = None →
  cost (merge_usage usage u).1 !! ck =
    match cost_field usage ck with Some f => Some f | None => cost u !! ck end.
Proof.
  unfold merge_usage, cost_field.
  destruct (get usage "cost") as [| | | | | |cost0]; try done.
  pose proof (merge_cost_lookup cost0 cost_keys (cost u) ck cost_keys_NoDup) as H.
  destruct (merge_cost cost0 cost_keys (cost u)) as [c r]. simpl in *.
  intros ->. by apply H.
Qed.

Lemma Usage_eq (u1 u2 : Usage) :
  (∀ k, counters u1 !! k = counters u2 !! k) →
  (∀ ck, cost u1 !! ck = cost u2 !! ck) → u1 = u2.
Proof.
  destruct u1, u2; simpl. intros H1 H2. f_equal; by apply map_eq.
Qed.

(** Two merges that share no field commute. *)
Lemma merge_usage_comm usage1 usage2 u :
  (merge_usage usage1 u).2 = None → (merge_usage usage2 u).2 = None →
  disjoint_fields usage1 usage2 →
  (merge_usage usage2 (merge_usage usage1 u).1).1 =
    (merge_usage usage1 (merge_usage usage2 u).1).1.
Proof.
  intros H1 H2 [Hc Hk]. apply Usage_eq.
  - intros k. rewrite !merge_usage_counters.
    destruct (Hc k) as [-> | ->]; by destruct (counter_field _ k).
  - intros ck.
    rewrite !merge_usage_cost;
      try (by erewrite merge_usage_raise_indep); try done.
    destruct (Hk ck) as [-> | ->]; by destruct (cost_field _ ck).
Qed.

Lemma raises_usage event usage u :
  get event "type" = VStr "usage" → get event "usage" = VDict usage →
  raises event = (merge_usage usage u).2.
Proof.
  intros Hty Hus. unfold raises, is_kind. rewrite Hty, Hus. simpl.
  apply merge_usage_raise_indep.
Qed.

Lemma merge_cost_converts cd keys c :
  (∀ ck, ck ∈ keys → is_number (get cd ck) = true →
         ∃ f, to_float (get cd ck) = inr f) →
  (merge_cost cd keys c).2 = None.
Proof.
  revert c. induction keys as [|k keys IH]; intros c Hconv; simpl; [done|].
  assert (∀ ck, ck ∈ keys → is_number (get cd ck) = true →
                ∃ f, to_float (get cd ck) = inr f) as Hrest.
  { intros ck Hck. apply Hconv. by apply list_elem_of_further. }
  destruct (is_number (get cd k)) eqn:Hn; [|by apply IH].
  destruct (Hconv k (list_elem_of_here _ _) Hn) as [f ->]. by apply IH.
Qed.

(** A usage dict whose cost numbers convert is merged without exception. *)
Lemma merge_usage_converts usage u :
  cost_converts usage → (merge_usage usage u).2 = None.
Proof.
  intros Hconv. unfold merge_usage.
  destruct (get usage "cost") as [| | | | | |cd] eqn:Hcd; try done.
  pose proof (merge_cost_converts cd cost_keys (cost u)
                (λ ck, Hconv cd ck Hcd)) as H.
  by destruct (merge_cost cd cost_keys (cost u)).
Qed.

(** The usage dict after one call, whatever the event. *)
Lemma anext_usage_lookup now self event u :
  store self !! _usage self = Some u →
  ∃ u', store (anext now self event).1 !! _usage self = Some u'
    ∧ (∀ k, counters u' !! k =
         match usage_of event ≫= (λ usage, counter_field usage k) with
         | Some v => Some v
         | None => counters u !! k
         end)
    ∧ ((∀ usage, usage_of event = Some usage → cost_converts usage) →
       ∀ ck, cost u' !! ck =
         match usage_of event ≫= (λ usage, cost_field usage ck) with
         | Some f => Some f
         | None => cost u !! ck
         end).
Proof.
  intros Hu. unfold usage_of.
  destruct (is_kind "usage" event) eqn:Hk.
  - apply eq_str_true in Hk. rewrite anext_usage by done. rewrite Hu.
    destruct (get event "usage") as [| | | | | |usage] eqn:Hus;
      try (exists u; by repeat split).
    simpl. rewrite lookup_insert_eq. eexists. split; [done|]. split.
    + intros k. apply merge_usage_counters.
    + intros Hconv ck. apply merge_usage_cost.
      apply merge_usage_converts. by apply Hconv.
  - rewrite anext_frame_store by done. exists u. by repeat split.
Qed.

Lemma usage_of_Some event usage :
  usage_of event = Some usage →
  get event "type" = VStr "usage" ∧ get event "usage" = VDict usage.
Proof.
  unfold usage_of. destruct (is_kind "usage" event) eqn:Hk; [|done].
  apply eq_str_true in Hk. destruct (get event "usage"); try done.
  by intros [= ->].
Qed.

Lemma anext_usage_state now self event usage u :
  usage_of event = Some usage → store self !! _usage self = Some u →
  (anext now self event).1 =
    set_store (<[_usage self := (merge_usage usage u).1]> (store self)) self.
Proof.
  intros [Hty Hus]%usage_of_Some Hu.
  rewrite anext_usage by done. by rewrite Hus, Hu.
Qed.

Lemma last_values_snoc {A} (f : Event → option A) events event :
  last (omap f (events ++ [event])) =
    match f event with Some x => Some x | None => last (omap f events) end.
Proof.
  rewrite omap_app. simpl. destruct (f event); simpl.
  - apply last_snoc.
  - by rewrite app_nil_r.
Qed.

Lemma counter_field_outside usage k :
  k ∉ int_keys → counter_field usage k = None.
Proof. intros Hk. unfold counter_field. by rewrite bool_decide_eq_false_2. Qed.

Lemma cost_field_outside usage ck :
  ck ∉ cost_keys → cost_field usage ck = None.
Proof.
  intros Hk. unfold cost_field. destruct (get usage "cost"); try done.
  by rewrite bool_decide_eq_false_2.
Qed.

(** A usage event whose cost numbers convert is handed back, not raised
    on. *)
Lemma anext_usage_returns now self event usage :
  wf self → usage_of event = Some usage → cost_converts usage →
  (anext now self event).2 = Returned event.
Proof.
  intros [u Hu] [Hty Hus]%usage_of_Some Hconv.
  rewrite anext_usage by done. rewrite Hus, Hu. simpl.
  by rewrite merge_usage_converts.
Qed.

(** C5 (as the code has it): along every run from a new assembler the usage
    dict holds, field by field, the value of the most recent usage event that
    carried the field (an [int] for a token field; a number for a cost field,
    as long as the cost numbers of the events convert to floats), and the
    initial zero where no event carried it; one more usage event is handed
    back and replaces exactly the fields it carries, leaving the others as
    they are; and two usage events that carry no field in common leave the
    same assembler behind in either order. *)
Theorem usage_merge_overwrite_if_present σ model events :
  let self := steps json_loads builtin_str (init σ model) events in
  ∃ u, store self !! _usage self = Some u
    ∧ (∀ k, counters u !! k =
         match last (counter_values k events.*2) with
         | Some v => Some v
         | None => counters _zero_usage !! k
         end)
    ∧ (Forall (λ e, ∀ usage, usage_of e = Some usage → cost_converts usage)
         events.*2 →
       ∀ ck, cost u !! ck =
         match last (cost_values ck events.*2) with
         | Some f => Some f
         | None => cost _zero_usage !! ck
         end)
    ∧ (∀ now event usage, usage_of event = Some usage →
       ∃ u', store (anext now self event).1 !! _usage self = Some u'
         ∧ (∀ k, counters u' !! k =
              match counter_field usage k with
              | Some v => Some v
              | None => counters u !! k
              end)
         ∧ (cost_converts usage →
            (anext now self event).2 = Returned event
            ∧ ∀ ck, cost u' !! ck =
                match cost_field usage ck with
                | Some f => Some f
                | None => cost u !! ck
                end))
    ∧ (∀ now1 now2 event1 event2 usage1 usage2,
         usage_of event1 = Some usage1 → usage_of event2 = Some usage2 →
         cost_converts usage1 → cost_converts usage2 →
         disjoint_fields usage1 usage2 →
         (anext now2 (anext now1 self event1).1 event2).1 =
           (anext now1 (anext now2 self event2).1 event1).1).
Proof.
  intros self.
  assert (wf self) as Hwf by apply steps_wf, init_wf.
  assert (∃ u, store self !! _usage self = Some u
    ∧ (∀ k, counters u !! k =
         match last (counter_values k events.*2) with
         | Some v => Some v
         | None => counters _zero_usage !! k
         end)
    ∧ (Forall (λ e, ∀ usage, usage_of e = Some usage → cost_converts usage)
         events.*2 →
       ∀ ck, cost u !! ck =
         match last (cost_values ck events.*2) with
         | Some f => Some f
         | None => cost _zero_usage !! ck
         end)) as (u & Hu & Hcnt & Hcost).
  { unfold self. clear self Hwf.
    induction events as [|[now event] events IH] using rev_ind.
    - exists _zero_usage. simpl. rewrite lookup_insert_eq. by repeat split.
    - destruct IH as (u & Hu & Hcnt & Hcost).
      rewrite steps_snoc, anext_usage_ref.
      destruct (anext_usage_lookup now _ event u Hu) as (u' & Hu' & Hc' & Hk').
      exists u'. split; [done|]. split.
      + intros k. rewrite Hc'. unfold counter_values.
        rewrite fmap_app. simpl. rewrite last_values_snoc.
        destruct (usage_of event ≫= λ usage, counter_field usage k); [done|].
        apply Hcnt.
      + rewrite fmap_app. simpl. rewrite Forall_app, Forall_singleton.
        intros [Hall Hr] ck. rewrite Hk' by done. unfold cost_values.
        rewrite last_values_snoc.
        destruct (usage_of event ≫= λ usage, cost_field usage ck); [done|].
        by apply Hcost. }
  exists u. repeat split; [done..| |].
  - intros now event usage Hus.
    destruct (anext_usage_lookup now self event u Hu) as (u' & Hu' & Hc' & Hk').
    exists u'. rewrite Hus in Hc', Hk'. simpl in *.
    split; [done|]. split; [done|]. intros Hconv. split.
    + by eapply anext_usage_returns.
    + apply Hk'. by intros usage' [= <-].
  - intros now1 now2 event1 event2 usage1 usage2 Hus1 Hus2 Hr1 Hr2 Hdis.
    apply (merge_usage_converts usage1 u) in Hr1.
    apply (merge_usage_converts usage2 u) in Hr2.
    rewrite (anext_usage_state now1 self event1 usage1 u) by done.
    rewrite (anext_usage_state now2 self event2 usage2 u) by done.
    erewrite (anext_usage_state now2 _ event2 usage2);
      [|done|simpl; apply lookup_insert_eq].
    erewrite (anext_usage_state now1 _ event1 usage1);
      [|done|simpl; apply lookup_insert_eq].
    unfold set_store; simpl. f_equal.
    rewrite !insert_insert_eq. f_equal. by apply merge_usage_comm.
Qed.

(** *** After finalization *)

(** C2 (as the code has it): once a message is cached, an event that is
    neither [done] nor [error] never replaces it, and its content, stop
    reason, error description and timestamp read the same afterwards; if the
    event is not a [usage] event either, its usage reads the same too, so
    the whole message is unchanged. *)
Theorem cached_message_kept now self event m :
  _final self = Some m →
  is_kind "done" event = false → is_kind "error" event = false →
  let self' := (anext now self event).1 in
  _final self' = Some m
  ∧ view_content (view (store self') m) = view_content (view (store self) m)
  ∧ view_stop_reason (view (store self') m)
    = view_stop_reason (view (store self) m)
  ∧ view_error_message (view (store self') m)
    = view_error_message (view (store self) m)
  ∧ view_timestamp (view (store self') m)
    = view_timestamp (view (store self) m)
  ∧ (is_kind "usage" event = false →
     view (store self') m = view (store self) m).
Proof.
  intros Hm Hd He self'. unfold self'.
  rewrite anext_frame_final by done. repeat split; [done|].
  intros Hu. by rewrite anext_frame_store.
Qed.



(** *** Error streams *)



(** *** The argument buffer *)






(** *** [done] events *)




(** *** [result()] *)

Lemma anext_frame_stop_reason now self event :
  is_kind "done" event = false → is_kind "error" event = false →
  _stop_reason (anext now self event).1 = _stop_reason self.
Proof. intros Hd He. anext_cases now self event. Qed.

Lemma steps_streaming self events :
  Forall (λ te, streaming te.2) events →
  _final (steps json_loads builtin_str self events) = _final self
  ∧ _stop_reason (steps json_loads builtin_str self events) = _stop_reason self
  ∧ _error_message (steps json_loads builtin_str self events)
    = _error_message self.
Proof.
  induction events as [|[now event] events IH] using rev_ind; [done|].
  rewrite Forall_app, Forall_singleton. intros [Hall [Hd He]].
  rewrite steps_snoc, anext_frame_final, anext_frame_stop_reason,
    anext_frame_error_message by done.
  by apply IH.
Qed.

Lemma raises_streaming event :
  streaming event →
  (∀ usage, usage_of event = Some usage → cost_converts usage) →
  raises event = None.
Proof.
  intros [Hd He] Hconv. unfold raises. rewrite Hd.
  destruct (is_kind "usage" event) eqn:Hk; [|done].
  destruct (get event "usage") as [| | | | | |usage] eqn:Hus; try done.
  apply merge_usage_converts, Hconv. unfold usage_of. by rewrite Hk, Hus.
Qed.

Lemma tool_calls_empty σ model events :
  _tool_calls (steps json_loads builtin_str (init σ model) events) = ∅
  ↔ Forall (λ e, has_index e = false) events.*2.
Proof.
  split.
  - intros Hemp. apply Forall_forall. intros e He.
    destruct (has_index e) eqn:Hi; [|done].
    destruct (steps_accumulator σ model events (int_value (get e "index")))
      as [Hs _].
    assert (is_Some (_tool_calls (steps json_loads builtin_str (init σ model) events)
                       !! int_value (get e "index"))) as [x Hx].
    { apply Hs, Exists_exists. exists e. split; [done|].
      unfold is_delta_for. unfold has_index in Hi. rewrite Hi. simpl.
      by apply bool_decide_eq_true. }
    rewrite Hemp in Hx. done.
  - intros Hall. apply map_empty. intros i.
    destruct (_tool_calls (steps json_loads builtin_str (init σ model) events) !! i)
      as [kc|] eqn:Hc; [|done].
    destruct (steps_accumulator σ model events i) as [Hs _].
    assert (Exists (λ e, is_delta_for i e = true) events.*2) as Hex
      by (apply Hs; by eexists).
    apply Exists_exists in Hex as (e & He & Hd).
    rewrite Forall_forall in Hall. specialize (Hall e He).
    unfold is_delta_for in Hd. unfold has_index in Hall.
    rewrite Hall in Hd. done.
Qed.


(** X4: [result()] is idempotent.  Once a call has returned a message, that
    message is cached, and every later call returns it again, whatever is
    left in the iterator and whatever the time, without consuming an event
    or changing the assembler. *)
Theorem result_idempotent self events t_end self' rest m :
  result json_loads builtin_str self events t_end = (self', rest, inr m) →
  _final self' = Some m
  ∧ ∀ events' t', result json_loads builtin_str self' events' t'
                  = (self', events', inr m).
Proof.
  intros Hres.
  assert (_final self' = Some m) as Hf.
  { unfold result in Hres.
    destruct (_final self) as [final|] eqn:Hfin.
    - injection Hres as <- <- <-. done.
    - destruct (drain json_loads builtin_str self events)
        as [[self1 events1] [x|]]; [done|].
      destruct (_final self1) as [final|] eqn:Hfin1.
      + injection Hres as <- <- <-. done.
      + injection Hres as <- <- <-. done. }
  split; [done|]. intros events' t'. unfold result. by rewrite Hf.
Qed.

Lemma steps_model self events :
  _model (steps json_loads builtin_str self events) = _model self.
Proof.
  induction events as [|[now event] events IH] using rev_ind; [done|].
  by rewrite steps_snoc, anext_model.
Qed.

Lemma steps_frame_store self events :
  Forall (λ e, is_kind "usage" e = false) events.*2 →
  store (steps json_loads builtin_str self events) = store self.
Proof.
  induction events as [|[now event] events IH] using rev_ind; [done|].
  rewrite fmap_app, Forall_app. simpl. intros [Hl Hu].
  apply Forall_inv in Hu.
  rewrite steps_snoc, anext_frame_store by done. by apply IH.
Qed.

(** A stream that ends with its only terminal event, a [done] event:
    what [result()] returns. *)
Lemma result_done σ model tevents before event t_end :
  tevents.*2 = before ++ [event] →
  Forall streaming before →
  Forall (λ e, ∀ usage, usage_of e = Some usage → cost_converts usage) before →
  get event "type" = VStr "done" → hashable (get event "reason") = true →
  ∃ self' m,
    result json_loads builtin_str (init σ model) tevents t_end
    = (self', [], inr m)
    ∧ content m =
        (if truthy (join (text_deltas before))
         then [TextContent (join (text_deltas before))] else [])
        ++ toolcall_blocks (_tool_calls self')
    ∧ (Forall (λ e, has_index e = false) before →
       _tool_calls self' = ∅
       ∧ stop_reason m = default Stop (known_reason (get event "reason")))
    ∧ error_message m = None
    ∧ api m = Model.api model ∧ provider m = Model.provider model
    ∧ Types.model m = Model.model model
    ∧ (Forall (λ e, is_kind "usage" e = false) before →
       store self' !! usage m = Some _zero_usage).
Proof.
  intros Heq Hstr Hconv Hty Hh.
  apply fmap_app_inv in Heq as (tbefore & tlast & -> & Hlast & ->).
  destruct tlast as [|[now event'] [|??]]; try done.
  injection Hlast as <-.
  assert (Forall (λ te, streaming te.2) tbefore) as Hstr'.
  { apply Forall_forall. intros te Hte.
    rewrite Forall_forall in Hstr. apply Hstr. by apply list_elem_of_fmap_2. }
  assert (Forall (λ te, raises te.2 = None) (tbefore ++ [(now, event)])) as Hr.
  { rewrite Forall_app, Forall_singleton. split.
    - pose proof Hstr as Hs0. pose proof Hconv as Hc0.
      rewrite Forall_forall in Hs0. rewrite Forall_forall in Hc0.
      apply Forall_forall. intros te Hte.
      apply raises_streaming.
      + apply Hs0. by apply list_elem_of_fmap_2.
      + apply Hc0. by apply (list_elem_of_fmap_2 snd).
    - simpl. unfold raises, is_kind. rewrite Hty. simpl. by rewrite Hh. }
  destruct (steps_streaming (init σ model) tbefore Hstr') as (Hf & Hs & He).
  unfold result. simpl. rewrite drain_steps; [|apply init_wf|done].
  rewrite steps_snoc, anext_done by done. simpl. rewrite Hh. simpl.
  eexists _, _. split; [reflexivity|]. simpl. rewrite He. simpl.
  split; [by rewrite steps_text|]. split.
  { intros Hno. apply (tool_calls_empty σ model tbefore) in Hno.
    split; [done|]. rewrite bool_decide_eq_true_2 by done. done. }
  split; [done|]. rewrite !steps_usage_ref. simpl.
  rewrite steps_model. simpl. repeat split.
  intros Hnu. rewrite steps_frame_store by done. simpl.
  apply lookup_insert_eq.
Qed.

End Facts.

(** *** Finalization with every exception kept *)

Section RaisingFacts.
Variable loads : string → exn + pyval.
Variable builtin_str : pyval → string.

#[local] Abbreviation block_raising := (toolcall_block_raising loads).
#[local] Abbreviation loop := (toolcall_blocks_loop loads).
#[local] Abbreviation final_raising := (_assemble_final_raising loads).
#[local] Abbreviation anext_raising := (anext_raising loads builtin_str).
#[local] Abbreviation harmless := (harmless loads).

Lemma str_of_int_checked_inr v s :
  str_of_int_checked v = inr s → s = str_of_int v.
Proof.
  destruct v; simpl; try by intros [= <-].
  destruct (Z.abs z <? 10 ^ max_str_digits); [|done]. by intros [= <-].
Qed.

Lemma toolcall_block_raising_harmless key call :
  harmless key call →
  block_raising key call
  = inr (toolcall_block (decode_only loads) key call).
Proof.
  intros [Hl Hs]. unfold toolcall_block_raising, toolcall_block.
  assert (parse_arguments_raising loads (call_arguments_json call)
          = inr (parse_arguments (decode_only loads)
                   (call_arguments_json call))) as ->.
  { unfold parse_arguments_raising, parse_arguments, decode_only.
    destruct (truthy (strip (call_arguments_json call))); [|done].
    destruct (loads (call_arguments_json call)) as [x|v] eqn:Hx.
    - by rewrite (Hl x eq_refl).
    - by destruct v. }
  simpl. destruct (truthy (call_id call)) eqn:Hid; [done|].
  destruct (Hs eq_refl) as [s Hstr]. rewrite Hstr. simpl.
  by rewrite (str_of_int_checked_inr _ _ Hstr).
Qed.

Lemma toolcall_blocks_loop_harmless (calls : gmap Z (pyval * Call)) keys :
  (∀ index key call, calls !! index = Some (key, call) → harmless key call) →
  loop calls keys
  = inr (omap (λ index,
                 (λ kc, toolcall_block (decode_only loads) kc.1 kc.2)
                   <$> calls !! index) keys).
Proof.
  intros Hall. induction keys as [|index keys IH]; simpl; [done|].
  destruct (calls !! index) as [[key call]|] eqn:Hc; simpl; [|done].
  rewrite (toolcall_block_raising_harmless key call) by by eapply Hall.
  simpl. by rewrite IH.
Qed.

(** When every accumulator is harmless, finalization returns, and returns
    the message of the reading in which [json.loads] raises nothing but
    [JSONDecodeError]. *)
Lemma assemble_final_raising_harmless now self :
  (∀ index key call,
     _tool_calls self !! index = Some (key, call) → harmless key call) →
  final_raising now self
  = inr (_assemble_final (decode_only loads) now self).
Proof.
  intros Hall. unfold _assemble_final_raising.
  by rewrite (toolcall_blocks_loop_harmless _ _ Hall).
Qed.

(** And then [__anext__] is the one of the reading in which [json.loads]
    raises nothing but [JSONDecodeError]. *)
Lemma anext_raising_harmless now self event :
  (∀ index key call,
     _tool_calls self !! index = Some (key, call) → harmless key call) →
  anext_raising now self event
  = anext (decode_only loads) builtin_str now self event.
Proof.
  intros Hall. unfold EventStream.anext_raising, anext, finalize_raising.
  destruct (eq_str (get event "type") "text_delta"); [done|].
  destruct (eq_str (get event "type") "toolcall_delta"); [done|].
  destruct (eq_str (get event "type") "done").
  { destruct (negb (hashable (get event "reason"))); [done|].
    by rewrite assemble_final_raising_harmless. }
  destruct (eq_str (get event "type") "usage"); [done|].
  destruct (eq_str (get event "type") "error"); [|done].
  by rewrite assemble_final_raising_harmless.
Qed.

Lemma toolcall_blocks_loop_raises (calls : gmap Z (pyval * Call))
    keys index key call x :
  index ∈ keys → calls !! index = Some (key, call) →
  block_raising key call = inl x →
  ∃ x', loop calls keys = inl x'.
Proof.
  intros Hin Hc Hx. induction keys as [|index' keys IH]; simpl.
  { by apply elem_of_nil in Hin. }
  apply elem_of_cons in Hin as [<-|Hin].
  - rewrite Hc, Hx. by eexists.
  - destruct (calls !! index') as [[key' call']|]; [|by apply IH].
    destruct (block_raising key' call') as [x'|b]; simpl; [by eexists|].
    destruct (IH Hin) as [x' ->]. by eexists.
Qed.

(** C7 (what the code does instead): the [try] block catches
    [json.JSONDecodeError] only.  When [json.loads] raises anything else on
    the argument buffer of some accumulator ([RecursionError] on a deeply
    nested buffer, [ValueError] on an integer literal over the digit limit),
    finalization raises: no message is assembled, and a terminal event then
    raises out of [__anext__] and leaves the cached message as it was. *)
Theorem malformed_arguments_raise now self index key call x :
  _tool_calls self !! index = Some (key, call) →
  truthy (strip (call_arguments_json call)) = true →
  loads (call_arguments_json call) = inl x → x ≠ JSONDecodeError →
  (∃ x', final_raising now self = inl x')
  ∧ ∀ event, terminal event = true →
      ∃ x', (anext_raising now self event).2 = Raised x'
        ∧ _final (anext_raising now self event).1 = _final self
        ∧ _tool_calls (anext_raising now self event).1 = _tool_calls self.
Proof.
  intros Hc Hstrip Hx Hne.
  assert (∃ x', block_raising key call = inl x') as [x' Hb].
  { unfold toolcall_block_raising, parse_arguments_raising.
    rewrite Hstrip, Hx. destruct x; try (by destruct Hne); by eexists. }
  assert (∀ self', _tool_calls self' = _tool_calls self →
            ∃ x'', final_raising now self' = inl x'') as Hraise.
  { intros self' Heq. unfold _assemble_final_raising. rewrite Heq.
    destruct (toolcall_blocks_loop_raises (_tool_calls self)
                (sorted_keys (_tool_calls self)) index key call x')
      as [x'' ->]; [|done|done|by eexists].
    apply sorted_keys_elem. by eexists. }
  split; [by apply Hraise|].
  assert (∀ self' event, _tool_calls self' = _tool_calls self →
            ∃ x'', finalize_raising loads now self' event = (self', Raised x''))
    as Hfin.
  { intros self' event Heq. unfold finalize_raising.
    destruct (Hraise self' Heq) as [x'' ->]. by exists x''. }
  intros event Ht. unfold terminal, is_kind in Ht.
  unfold EventStream.anext_raising.
  destruct (eq_str (get event "type") "error") eqn:He.
  - apply eq_str_true in He. rewrite He. simpl.
    match goal with
    | |- context [finalize_raising loads now ?s event] =>
        destruct (Hfin s event eq_refl) as [x'' ->]
    end.
    by exists x''.
  - simpl in Ht. apply andb_true_iff in Ht as [Hd Hh].
    apply eq_str_true in Hd. rewrite Hd. simpl. rewrite Hh. simpl.
    match goal with
    | |- context [finalize_raising loads now ?s event] =>
        destruct (Hfin s event eq_refl) as [x'' ->]
    end.
    by exists x''.
Qed.

End RaisingFacts.

(** *** The statements at concrete streams *)

#[local] Abbreviation anext' := (anext sample_json_loads sample_str).
#[local] Abbreviation steps' := (steps sample_json_loads sample_str).
#[local] Abbreviation result' := (result sample_json_loads sample_str).
#[local] Abbreviation final' := (_assemble_final sample_json_loads).

Lemma toolcall_delta_without_index_witness :
  anext' 5 sample_init {[ "type" := VStr "toolcall_delta"; "index" := VStr "0" ]}
  = (sample_init,
     Returned {[ "type" := VStr "toolcall_delta"; "index" := VStr "0" ]}).
Proof.
  apply (toolcall_delta_without_index sample_json_loads sample_str);
    vm_compute; reflexivity.
Defined.



(** A usage event after [done] shows through the cached message. *)
Lemma cached_usage_mutated :
  let self := (anext' 1 sample_init (ev_done "stop")).1 in
  let self' := (anext' 2 self (ev_usage {[ "input" := VInt 5 ]})).1 in
  ∃ m, _final self = Some m ∧ _final self' = Some m
    ∧ (view_usage (view (store self) m) ≫= λ u, counters u !! "input")
      = Some (VInt 0)
    ∧ (view_usage (view (store self') m) ≫= λ u, counters u !! "input")
      = Some (VInt 5)
    ∧ view (store self') m ≠ view (store self) m.
Proof.
  intros self self'. eexists. split; [reflexivity|]. split; [reflexivity|].
  split; [vm_compute; reflexivity|]. split; [vm_compute; reflexivity|].
  intros H.
  apply (f_equal (λ v, view_usage v ≫= λ u, counters u !! "input")) in H.
  vm_compute in H. discriminate.
Qed.

(** A second terminal event replaces the cached message by a new one. *)
Lemma cached_message_replaced :
  let self := (anext' 1 sample_init (ev_done "stop")).1 in
  let self' := (anext' 2 self (ev_done "length")).1 in
  (stop_reason <$> _final self) = Some Stop
  ∧ (timestamp <$> _final self) = Some 1
  ∧ (stop_reason <$> _final self') = Some Length
  ∧ (timestamp <$> _final self') = Some 2.
Proof. vm_compute. repeat split; reflexivity. Qed.

Lemma cached_message_kept_witness :
  let self := (anext' 1 sample_init (ev_done "stop")).1 in
  let m := final' 1 (set_stop_reason (Some Stop) sample_init) in
  let self' := (anext' 2 self (ev_text "late")).1 in
  _final self' = Some m ∧ view (store self') m = view (store self) m.
Proof.
  intros self m self'.
  destruct (cached_message_kept sample_json_loads sample_str 2 self
              (ev_text "late") m) as (Hf & _ & _ & _ & _ & Hv).
  - vm_compute. reflexivity.
  - vm_compute. reflexivity.
  - vm_compute. reflexivity.
  - split; [exact Hf|]. apply Hv. vm_compute. reflexivity.
Defined.

Lemma stop_reason_tool_use_witness :
  let self := steps' sample_init [(1, ev_toolcall (VInt 0) "call_1" "add" "{}")] in
  stop_reason (final' 2 self) = ToolUse
  ∧ stop_reason (final' 2 (set_stop_reason (Some Length) self)) = Length.
Proof.
  intros self. split.
  - destruct (stop_reason_tool_use sample_json_loads 2 self
                (ToolCallContent "call_1" "add" ∅)) as [Hup _].
    + vm_compute. apply list_elem_of_here.
    + reflexivity.
    + apply Hup. reflexivity.
  - destruct (stop_reason_tool_use sample_json_loads 2
                (set_stop_reason (Some Length) self)
                (ToolCallContent "call_1" "add" ∅)) as [_ Hkeep].
    + vm_compute. apply list_elem_of_here.
    + reflexivity.
    + apply Hkeep; [reflexivity|]. left. reflexivity.
Defined.


Lemma malformed_arguments_empty_witness :
  let self :=
    steps' sample_init
      [(1, ev_toolcall (VInt 3) "" "add" "{"); (2, ev_toolcall (VInt 3) "" "" "[1]")] in
  ToolCallContent "toolcall:3" "add" ∅ ∈ content (final' 3 self).
Proof.
  intros self.
  apply (malformed_arguments_empty sample_json_loads sample_str 3 self 3
           (VInt 3) (mkCall "" "add" "{[1]")).
  - vm_compute. reflexivity.
  - left. vm_compute. reflexivity.
Defined.

(** A buffer of 5000 opening brackets: [json.loads] raises
    [RecursionError] on it, which the [try] block does not catch, and the
    [done] event raises out of [__anext__] with no message cached. *)
Lemma malformed_arguments_raise_witness :
  let self :=
    (anext_raising sample_loads sample_str 1 sample_init
       (ev_toolcall (VInt 0) "call_1" "add" (brackets 5000))).1 in
  (∃ x, _assemble_final_raising sample_loads 2 self = inl x)
  ∧ ∃ x, (anext_raising sample_loads sample_str 2 self (ev_done "stop")).2
         = Raised x
       ∧ _final (anext_raising sample_loads sample_str 2 self
                   (ev_done "stop")).1 = None.
Proof.
  intros self.
  destruct (malformed_arguments_raise sample_loads sample_str 2 self 0
              (VInt 0) (mkCall "call_1" "add" (brackets 5000))
              RecursionError) as [Hfinal Hnext].
  - vm_compute. reflexivity.
  - vm_compute. reflexivity.
  - vm_compute. reflexivity.
  - discriminate.
  - split; [exact Hfinal|].
    destruct (Hnext (ev_done "stop")) as (x & Hx & Hf & _).
    + vm_compute. reflexivity.
    + exists x. split; [exact Hx|]. rewrite Hf. reflexivity.
Defined.

(** [RecursionError] it is. *)
Lemma deep_arguments_recursion_error :
  let self :=
    (anext_raising sample_loads sample_str 1 sample_init
       (ev_toolcall (VInt 0) "call_1" "add" (brackets 5000))).1 in
  (anext_raising sample_loads sample_str 2 self (ev_done "stop")).2
  = Raised RecursionError.
Proof. vm_compute. reflexivity. Qed.



(** An [error] event with the empty string as payload: the message has no
    error description. *)
Lemma error_empty_payload json_loads builtin_str now :
  match (result json_loads builtin_str sample_init
           [(now, ev_error (VStr ""))] now).2 with
  | inr m => stop_reason m = Error ∧ error_message m = None
  | inl _ => False
  end.
Proof. split; reflexivity. Qed.

(** Splits [H : k ∈ [k1; ..; kn]] into the n cases. *)
Ltac each_key H :=
  repeat (apply elem_of_cons in H as [->|H]); [..|by apply elem_of_nil in H].

(** For a concrete usage dict: its cost numbers convert. *)
Ltac show_converts :=
  let cd := fresh "cd" in let ck := fresh "ck" in
  let Hc := fresh "Hc" in let Hck := fresh "Hck" in let Hn := fresh "Hn" in
  intros cd ck Hc Hck Hn; vm_compute in Hc;
  first [discriminate Hc | injection Hc as <-];
  each_key Hck;
  first [vm_compute in Hn; discriminate Hn | vm_compute; eexists; reflexivity].

(** For two concrete usage dicts: they carry no field in common. *)
Ltac show_disjoint :=
  split;
  [ let k := fresh "k" in let Hk := fresh "Hk" in
    intros k; destruct (decide (k ∈ int_keys)) as [Hk|Hk];
    [ each_key Hk;
      first [left; vm_compute; reflexivity | right; vm_compute; reflexivity]
    | left; by apply counter_field_outside ]
  | let ck := fresh "ck" in let Hk := fresh "Hk" in
    intros ck; destruct (decide (ck ∈ cost_keys)) as [Hk|Hk];
    [ each_key Hk;
      first [left; vm_compute; reflexivity | right; vm_compute; reflexivity]
    | left; by apply cost_field_outside ] ].

(** A cost dict whose first number is too large for a float: [float()]
    raises on it, and the total that follows it in the event is not written
    although the event carries it. *)
Lemma cost_overflow_skips_total :
  let usage : dict :=
    {[ "cost" := VDict {[ "input" := VInt (10 ^ 400); "total" := VInt 5 ]} ]} in
  let self := (anext' 1 sample_init (ev_usage usage)).1 in
  cost_field usage "total" = Some 5%float
  ∧ (anext' 1 sample_init (ev_usage usage)).2 = Raised OverflowError
  ∧ (store self !! _usage self ≫= λ u, cost u !! "total") = Some 0%float
  ∧ (store self !! _usage self ≫= λ u, cost u !! "total") ≠ Some 5%float.
Proof. vm_compute. repeat split. intros [= H]. Qed.

Lemma usage_merge_overwrite_if_present_witness :
  let usage1 : dict :=
    {[ "input" := VInt 10; "cost" := VDict {[ "total" := VFloat 0.5 ]} ]} in
  let usage2 : dict :=
    {[ "cache_read" := VInt 3; "cost" := VDict {[ "input" := VInt 1 ]} ]} in
  let e1 := ev_usage usage1 in
  let e2 := ev_usage usage2 in
  (anext' 2 (anext' 1 sample_init e1).1 e2).1
  = (anext' 1 (anext' 2 sample_init e2).1 e1).1
  ∧ (anext' 1 sample_init e1).2 = Returned e1
  ∧ ∃ u, store (steps' sample_init [(1, e1); (2, e2)])
           !! _usage sample_init = Some u
         ∧ counters u !! "input" = Some (VInt 10)
         ∧ counters u !! "cache_read" = Some (VInt 3)
         ∧ counters u !! "output" = Some (VInt 0)
         ∧ cost u !! "total" = Some 0.5%float
         ∧ cost u !! "input" = Some 1%float
         ∧ cost u !! "output" = Some 0%float.
Proof.
  intros usage1 usage2 e1 e2.
  assert (cost_converts usage1) as Hc1 by show_converts.
  assert (cost_converts usage2) as Hc2 by show_converts.
  split; [|split].
  - destruct (usage_merge_overwrite_if_present sample_json_loads sample_str
                ∅ sample_model []) as (u & _ & _ & _ & _ & Hcomm).
    apply (Hcomm 1 2 e1 e2 usage1 usage2);
      [reflexivity|reflexivity|exact Hc1|exact Hc2|show_disjoint].
  - destruct (usage_merge_overwrite_if_present sample_json_loads sample_str
                ∅ sample_model []) as (u & _ & _ & _ & Hstep & _).
    destruct (Hstep 1 e1 usage1 eq_refl) as (u' & _ & _ & Hret).
    apply (Hret Hc1).
  - destruct (usage_merge_overwrite_if_present sample_json_loads sample_str
                ∅ sample_model [(1, e1); (2, e2)]) as (u & Hu & Hc & Hk & _).
    assert (Forall (λ e, ∀ usage, usage_of e = Some usage → cost_converts usage)
              [(1, e1); (2, e2)].*2) as Hall.
    { repeat constructor; intros usage [= <-]; assumption. }
    specialize (Hk Hall).
    exists u. split; [exact Hu|]. rewrite !Hc, !Hk.
    vm_compute. repeat split.
Defined.

(** *** Further statements at concrete streams *)




Lemma result_idempotent_witness :
  let events := [(1, ev_text "ok"); (2, ev_done "stop")] in
  ∃ self' m,
    result' sample_init events 3 = (self', [], inr m)
    ∧ result' self' [(4, ev_text "late")] 5
      = (self', [(4, ev_text "late")], inr m).
Proof.
  intros events.
  destruct (result' sample_init events 3) as [[self' rest] [x|m]] eqn:Hres;
    [vm_compute in Hres; discriminate|].
  assert (rest = []) as -> by (vm_compute in Hres; by injection Hres as _ <- _).
  exists self', m. split; [reflexivity|].
  by apply (result_idempotent sample_json_loads sample_str sample_init
              events 3 self' [] m).
Defined.

End EventStreamFacts.

(** ** The OpenAI-compatible usage mapping *)

Module OpenAICompatFacts.
Import EventStream OpenAICompat.

Lemma set_if_number_converts k v c :
  converts v →
  ∃ c', set_if_number k v c = inr c'
    ∧ (∀ k', k' ≠ k → c' !! k' = c !! k')
    ∧ (is_number v = false → c' = c)
    ∧ (∀ f, is_number v = true → to_float v = inr f → c' = <[k := f]> c).
Proof.
  unfold converts, set_if_number. intros Hv.
  destruct (is_number v) eqn:Hn.
  - destruct (Hv eq_refl) as [f Hf]. rewrite Hf. simpl.
    exists (<[k := f]> c). repeat split; [|done|].
    + intros k' Hne. by rewrite lookup_insert_ne.
    + intros f' _ [= ->]. done.
  - exists c. repeat split; done.
Qed.

(** When the vendor's numbers convert, the mapping returns. *)
Lemma _usage_from_openai_returns usage :
  details_convert usage → converts (get usage "cost") →
  ∃ mapped, _usage_from_openai usage = inr mapped
    ∧ counters mapped !! "input" = Some (token_count usage "prompt_tokens")
    ∧ counters mapped !! "output"
      = Some (token_count usage "completion_tokens")
    ∧ (∀ f, is_number (get usage "cost") = true →
         to_float (get usage "cost") = inr f →
         cost mapped !! "total" = Some f)
    ∧ (is_number (get usage "cost") = false →
       (∀ d, get usage "cost_details" ≠ VDict d) →
       cost mapped = cost _zero_usage).
Proof.
  intros Hd Hc. unfold _usage_from_openai.
  assert (∃ c, match get usage "cost_details" with
               | VDict cost_details =>
                   let* cost :=
                     set_if_number "input"
                       (get cost_details "upstream_inference_prompt_cost")
                       (cost _zero_usage) in
                   let* cost :=
                     set_if_number "output"
                       (get cost_details "upstream_inference_completions_cost")
                       cost in
                   inr (<["total" :=
                          (cost_get cost "input" + cost_get cost "output")%float]>
                          cost)
               | _ => inr (cost _zero_usage)
               end = inr c
               ∧ ((∀ d, get usage "cost_details" ≠ VDict d) →
                  c = cost _zero_usage)) as (c & -> & Hzero).
  { destruct (get usage "cost_details") as [| | | | | |d] eqn:Hcd;
      try (eexists; split; [reflexivity|done]).
    destruct (Hd d Hcd) as [Hp Hq].
    destruct (set_if_number_converts "input" _ (cost _zero_usage) Hp)
      as (c1 & -> & _).
    simpl.
    destruct (set_if_number_converts "output" _ c1 Hq) as (c2 & -> & _).
    simpl. eexists. split; [reflexivity|]. intros Hno. by destruct (Hno d). }
  simpl.
  destruct (set_if_number_converts "total" _ c Hc) as (c' & -> & _ & Hnn & Hn).
  simpl. eexists. split; [reflexivity|]. simpl.
  split; [reflexivity|]. split; [reflexivity|]. split.
  - intros f Hnum Hf. rewrite (Hn f Hnum Hf). apply lookup_insert_eq.
  - intros Hnum Hno. rewrite (Hnn Hnum). by apply Hzero.
Qed.

Lemma bind_exn_inr {A B} (a : A) (k : A → exn + B) : bind_exn (inr a) k = k a.
Proof. done. Qed.

Lemma price_side_value k side mapped pricing c v t p :
  is_number pricing = true → mapped !! side = Some v →
  to_float v = inr t → to_float pricing = inr p →
  price_side k side mapped pricing c = inr (<[k := (t / 1000000 * p)%float]> c).
Proof.
  intros Hn Hv Ht Hp. unfold price_side, get. rewrite Hn, Hv. cbn [default from_option id].
  by rewrite Ht, Hp.
Qed.

(** C4 (as the code has it): for a frame with a non-empty usage object
    whose numbers convert, a usage event is yielded, and in it (1) an explicit
    cost total that is not zero is carried through as it is, whatever prices
    were supplied; (2) when the vendor sent neither a cost total nor cost
    details and both prices were supplied, the input cost is
    [tokens / 1_000_000 * price] of the input side, the output cost that of
    the output side, and the total their sum. *)
Theorem cost_total_or_pricing pricing_in pricing_out event usage_block :
  get event "usage" = VDict usage_block → usage_block ≠ ∅ →
  (∀ f, is_number (get usage_block "cost") = true →
        to_float (get usage_block "cost") = inr f →
        (f =? 0)%float = false →
        details_convert usage_block →
        ∃ mapped, stream_usage pricing_in pricing_out event = inr (Some mapped)
          ∧ cost mapped !! "total" = Some f)
  ∧ (∀ t_in t_out p_in p_out,
        is_number (get usage_block "cost") = false →
        (∀ d, get usage_block "cost_details" ≠ VDict d) →
        is_number pricing_in = true → is_number pricing_out = true →
        to_float pricing_in = inr p_in → to_float pricing_out = inr p_out →
        to_float (token_count usage_block "prompt_tokens") = inr t_in →
        to_float (token_count usage_block "completion_tokens") = inr t_out →
        ∃ mapped, stream_usage pricing_in pricing_out event = inr (Some mapped)
          ∧ cost mapped !! "input" = Some (t_in / 1000000 * p_in)%float
          ∧ cost mapped !! "output" = Some (t_out / 1000000 * p_out)%float
          ∧ cost mapped !! "total"
            = Some (t_in / 1000000 * p_in + t_out / 1000000 * p_out)%float).
Proof.
  intros Hev Hne. unfold stream_usage. rewrite Hev.
  rewrite bool_decide_eq_false_2 by done. split.
  - intros f Hnum Hf Hnz Hd.
    destruct (_usage_from_openai_returns usage_block Hd)
      as (mapped & -> & _ & _ & Htot & _).
    { intros _. by exists f. }
    rewrite bind_exn_inr. specialize (Htot f Hnum Hf).
    unfold cost_get at 1. rewrite Htot. cbn [default from_option id].
    rewrite Hnz.
    cbn [andb]. rewrite bind_exn_inr. eexists. split; [reflexivity|]. done.
  - intros t_in t_out p_in p_out Hnum Hno Hpi Hpo Hfi Hfo Hti Hto.
    destruct (_usage_from_openai_returns usage_block)
      as (mapped & -> & Hin & Hout & _ & Hzero).
    { intros d Hd. by destruct (Hno d). }
    { intros Hn. congruence. }
    rewrite bind_exn_inr, (Hzero Hnum Hno), Hpi.
    assert ((cost_get (cost _zero_usage) "total" =? 0)%float = true) as ->
      by reflexivity.
    cbn [andb orb].
    rewrite (price_side_value "input" "input" _ _ _ _ t_in p_in) by done.
    rewrite bind_exn_inr.
    rewrite (price_side_value "output" "output" _ _ _ _ t_out p_out) by done.
    rewrite !bind_exn_inr. eexists. split; [reflexivity|].
    cbn [cost]. unfold cost_get.
    rewrite !lookup_insert_eq, (lookup_insert_ne _ "output" "input") by done.
    rewrite lookup_insert_eq. cbn [default from_option id].
    repeat split.
Qed.

(** *** The token counts and the seam to the assembler *)

Lemma token_count_int usage k : is_int (token_count usage k) = true.
Proof. unfold token_count. by destruct (is_int (get usage k)) eqn:H. Qed.

Lemma full_zero : full (cost _zero_usage).
Proof.
  intros ck Hck.
  repeat (apply elem_of_cons in Hck as [->|Hck]); try by eexists.
  by apply elem_of_nil in Hck.
Qed.

Lemma full_insert k f c : full c → full (<[k := f]> c).
Proof.
  intros Hc ck Hck. destruct (decide (k = ck)) as [->|Hne].
  - rewrite lookup_insert_eq. by eexists.
  - rewrite lookup_insert_ne by done. by apply Hc.
Qed.

Lemma set_if_number_full k v c c' :
  set_if_number k v c = inr c' → full c → full c'.
Proof.
  unfold set_if_number. destruct (is_number v); [|by intros [= <-]].
  destruct (to_float v); [done|]. simpl. intros [= <-]. apply full_insert.
Qed.

Lemma price_side_full k side mapped pricing c c' :
  price_side k side mapped pricing c = inr c' → full c → full c'.
Proof.
  unfold price_side. destruct (is_number pricing); [|by intros [= <-]].
  destruct (to_float (get mapped side)); [done|]. simpl.
  destruct (to_float pricing); [done|]. simpl. intros [= <-].
  apply full_insert.
Qed.

(** What the mapping returns, when it returns. *)
Lemma _usage_from_openai_shape usage mapped :
  _usage_from_openai usage = inr mapped →
  counters mapped =
    list_to_map
      [("input", token_count usage "prompt_tokens");
       ("output", token_count usage "completion_tokens");
       ("cache_read", VInt 0); ("cache_write", VInt 0);
       ("total_tokens",
        if is_int (get usage "total_tokens") then get usage "total_tokens"
        else VInt (int_value (token_count usage "prompt_tokens")
                   + int_value (token_count usage "completion_tokens")))]
  ∧ full (cost mapped).
Proof.
  unfold _usage_from_openai.
  destruct (get usage "cost_details") as [| | | | | |d].
  7: { destruct (set_if_number "input" _ _) as [x|c1] eqn:H1; [done|]. simpl.
       destruct (set_if_number "output" _ _) as [x|c2] eqn:H2; [done|]. simpl.
       destruct (set_if_number "total" _ _) as [x|c3] eqn:H3; [done|]. simpl.
       intros [= <-]. split; [done|]. simpl.
       eapply set_if_number_full; [done|]. apply full_insert.
       eapply set_if_number_full; [done|].
       eapply set_if_number_full; [done|]. apply full_zero. }
  all: simpl;
    destruct (set_if_number "total" _ _) as [x|c3] eqn:H3; [done|]; simpl;
    intros [= <-]; split; [done|]; simpl;
    (eapply set_if_number_full; [done|]); apply full_zero.
Qed.

(** X5: when the vendor's cost numbers convert, the mapping returns, and
    its token counts are: input and output the vendor's prompt and completion
    counts when these are ints and 0 otherwise, cache read and cache write 0,
    and the total the vendor's total when it is an int and the sum of input
    and output otherwise. *)
Theorem usage_tokens_mapped usage :
  details_convert usage → converts (get usage "cost") →
  ∃ mapped, _usage_from_openai usage = inr mapped
    ∧ counters mapped !! "input" = Some (token_count usage "prompt_tokens")
    ∧ counters mapped !! "output"
      = Some (token_count usage "completion_tokens")
    ∧ counters mapped !! "cache_read" = Some (VInt 0)
    ∧ counters mapped !! "cache_write" = Some (VInt 0)
    ∧ (is_int (get usage "total_tokens") = true →
       counters mapped !! "total_tokens" = Some (get usage "total_tokens"))
    ∧ (is_int (get usage "total_tokens") = false →
       counters mapped !! "total_tokens"
       = Some (VInt (int_value (token_count usage "prompt_tokens")
                     + int_value (token_count usage "completion_tokens")))).
Proof.
  intros Hd Hc.
  destruct (_usage_from_openai_returns usage Hd Hc) as (mapped & Hm & _).
  exists mapped. split; [done|].
  destruct (_usage_from_openai_shape usage mapped Hm) as [-> _].
  repeat split; intros ->; reflexivity.
Qed.

Lemma stream_usage_shape pricing_in pricing_out frame mapped :
  stream_usage pricing_in pricing_out frame = inr (Some mapped) →
  (∀ k, k ∈ int_keys → ∃ v, counters mapped !! k = Some v ∧ is_int v = true)
  ∧ full (cost mapped).
Proof.
  unfold stream_usage.
  destruct (get frame "usage") as [| | | | | |usage_block]; try done.
  destruct (bool_decide (usage_block = ∅)); [done|].
  destruct (_usage_from_openai usage_block) as [x|m0] eqn:Hm; [done|].
  rewrite bind_exn_inr.
  destruct (_usage_from_openai_shape usage_block m0 Hm) as [Hcnt Hfull].
  assert (∀ k, k ∈ int_keys → ∃ v, counters m0 !! k = Some v ∧ is_int v = true)
    as Hints.
  { intros k Hk. rewrite Hcnt.
    repeat (apply elem_of_cons in Hk as [->|Hk]);
      [eexists; split; [reflexivity|]..|by apply elem_of_nil in Hk];
      try apply token_count_int; try done.
    unfold token_count.
    by destruct (is_int (get usage_block "total_tokens")) eqn:Ht. }
  destruct ((cost_get (cost m0) "total" =? 0)%float
            && (is_number pricing_in || is_number pricing_out)).
  - destruct (price_side "input" _ _ _ _) as [x|c1] eqn:H1; [done|].
    rewrite bind_exn_inr.
    destruct (price_side "output" _ _ _ _) as [x|c2] eqn:H2; [done|].
    rewrite !bind_exn_inr. intros [= <-]. split; [done|]. simpl.
    apply full_insert. eapply price_side_full; [done|].
    by eapply price_side_full.
  - rewrite bind_exn_inr. intros [= <-]. done.
Qed.

Section Seam.
Variable json_loads : string → option pyval.
Variable builtin_str : pyval → string.

(** X6: the usage event the adapter yields is taken over whole by the
    assembler: it is handed back, and afterwards every token field and every
    cost field of the usage dict is the one of the adapter's mapping. *)
Theorem usage_event_taken_over pricing_in pricing_out frame mapped now self u :
  stream_usage pricing_in pricing_out frame = inr (Some mapped) →
  store self !! _usage self = Some u →
  (anext json_loads builtin_str now self (usage_event mapped)).2
  = Returned (usage_event mapped)
  ∧ ∃ u', store (anext json_loads builtin_str now self (usage_event mapped)).1
            !! _usage self = Some u'
      ∧ (∀ k, k ∈ int_keys → counters u' !! k = counters mapped !! k)
      ∧ (∀ ck, ck ∈ cost_keys → cost u' !! ck = cost mapped !! ck).
Proof.
  intros Hm Hu.
  destruct (stream_usage_shape _ _ _ _ Hm) as [Hints Hfull].
  set (d := <["cost" := VDict (VFloat <$> cost mapped)]> (counters mapped)).
  assert (usage_of (usage_event mapped) = Some d) as Hus by reflexivity.
  assert (get d "cost" = VDict (VFloat <$> cost mapped)) as Hcost.
  { unfold get, d. by rewrite lookup_insert_eq. }
  assert (∀ k, k ∈ int_keys → d !! k = counters mapped !! k) as Hdk.
  { intros k Hk. unfold d. apply lookup_insert_ne. intros <-.
    repeat (apply elem_of_cons in Hk as [Hk|Hk]; [discriminate Hk|]).
    by apply elem_of_nil in Hk. }
  assert (cost_converts d) as Hconv.
  { intros cd ck Hcd _. rewrite Hcost in Hcd. injection Hcd as <-.
    unfold get. rewrite lookup_fmap.
    destruct (cost mapped !! ck); simpl; [by eexists|done]. }
  split.
  - eapply EventStreamFacts.anext_usage_returns; [by eexists|done..].
  - destruct (EventStreamFacts.anext_usage_lookup json_loads builtin_str
                now self (usage_event mapped) u Hu) as (u' & Hu' & Hc & Hk).
    exists u'. split; [done|]. rewrite Hus in Hc, Hk. simpl in Hc, Hk. split.
    + intros k Hin. rewrite Hc. unfold counter_field, get.
      rewrite bool_decide_eq_true_2, (Hdk k) by done.
      destruct (Hints k Hin) as (v & -> & Hv). simpl. by rewrite Hv.
    + intros ck Hin. rewrite Hk by (by intros usage [= <-]).
      unfold cost_field. rewrite Hcost. unfold get. rewrite lookup_fmap.
      rewrite bool_decide_eq_true_2 by done.
      destruct (Hfull ck Hin) as [f ->]. done.
Qed.

End Seam.

(** Cost details but no cost total, both prices supplied: the cost is the
    vendor's split, not [tokens / 1_000_000 * price]. *)
Lemma cost_details_stop_pricing :
  let usage_block : dict :=
    {[ "prompt_tokens" := VInt 1000000; "completion_tokens" := VInt 0;
       "cost_details" :=
         VDict {[ "upstream_inference_prompt_cost" := VFloat 0.5 ]} ]} in
  get usage_block "cost" = VNone
  ∧ match stream_usage (VFloat 2) (VFloat 2) {[ "usage" := VDict usage_block ]}
    with
    | inr (Some mapped) =>
        cost mapped !! "input" = Some 0.5%float
        ∧ cost mapped !! "total" = Some 0.5%float
        ∧ cost mapped !! "input" ≠ Some (1000000 / 1000000 * 2)%float
    | _ => False
    end.
Proof.
  vm_compute. repeat split. intros [= H].
Qed.

(** An explicit cost total of zero with a price supplied: the total is
    computed from the price, the vendor's zero is not kept. *)
Lemma explicit_zero_total_recomputed :
  let usage_block : dict :=
    {[ "prompt_tokens" := VInt 1000000; "completion_tokens" := VInt 0;
       "cost" := VInt 0 ]} in
  match stream_usage (VFloat 2) VNone {[ "usage" := VDict usage_block ]} with
  | inr (Some mapped) => cost mapped !! "total" = Some 2%float
  | _ => False
  end.
Proof. vm_compute. reflexivity. Qed.

Lemma cost_total_or_pricing_witness :
  (∃ mapped,
     stream_usage (VFloat 2) (VFloat 2)
       {[ "usage" := VDict {[ "prompt_tokens" := VInt 10;
                              "completion_tokens" := VInt 5;
                              "cost" := VFloat 0.25 ]} ]}
     = inr (Some mapped)
     ∧ cost mapped !! "total" = Some 0.25%float)
  ∧ (∃ mapped,
       stream_usage (VFloat 3) (VInt 15)
         {[ "usage" := VDict {[ "prompt_tokens" := VInt 1000000;
                                "completion_tokens" := VInt 500000 ]} ]}
       = inr (Some mapped)
       ∧ cost mapped !! "input" = Some (1000000 / 1000000 * 3)%float
       ∧ cost mapped !! "output" = Some (500000 / 1000000 * 15)%float
       ∧ cost mapped !! "total"
         = Some (1000000 / 1000000 * 3 + 500000 / 1000000 * 15)%float).
Proof.
  split.
  - apply (cost_total_or_pricing (VFloat 2) (VFloat 2) _
             {[ "prompt_tokens" := VInt 10; "completion_tokens" := VInt 5;
                "cost" := VFloat 0.25 ]}).
    + vm_compute. reflexivity.
    + intros H. apply (f_equal (λ m, m !! "cost")) in H.
      vm_compute in H. discriminate.
    + reflexivity.
    + vm_compute. reflexivity.
    + vm_compute. reflexivity.
    + intros d Hd. vm_compute in Hd. discriminate.
  - apply (cost_total_or_pricing (VFloat 3) (VInt 15) _
             {[ "prompt_tokens" := VInt 1000000;
                "completion_tokens" := VInt 500000 ]}).
    + vm_compute. reflexivity.
    + intros H. apply (f_equal (λ m, m !! "prompt_tokens")) in H.
      vm_compute in H. discriminate.
    + vm_compute. reflexivity.
    + intros d Hd. vm_compute in Hd. discriminate.
    + reflexivity.
    + reflexivity.
    + reflexivity.
    + vm_compute. reflexivity.
    + vm_compute. reflexivity.
    + vm_compute. reflexivity.
Defined.


Lemma usage_tokens_mapped_witness :
  ∃ mapped,
    _usage_from_openai
      {[ "prompt_tokens" := VInt 10; "completion_tokens" := VStr "5";
         "cost" := VFloat 0.25 ]} = inr mapped
    ∧ counters mapped !! "input" = Some (VInt 10)
    ∧ counters mapped !! "output" = Some (VInt 0)
    ∧ counters mapped !! "total_tokens" = Some (VInt 10).
Proof.
  destruct (usage_tokens_mapped
              {[ "prompt_tokens" := VInt 10; "completion_tokens" := VStr "5";
                 "cost" := VFloat 0.25 ]})
    as (mapped & Hm & Hi & Ho & _ & _ & _ & Ht).
  - intros d Hd. vm_compute in Hd. discriminate.
  - intros _. eexists. vm_compute. reflexivity.
  - exists mapped. split; [exact Hm|].
    split; [exact Hi|]. split; [exact Ho|]. apply Ht. reflexivity.
Defined.

Lemma usage_event_taken_over_witness :
  ∃ mapped,
    stream_usage (VFloat 3) (VInt 15)
      {[ "usage" := VDict {[ "prompt_tokens" := VInt 1000000;
                             "completion_tokens" := VInt 500000 ]} ]}
    = inr (Some mapped)
    ∧ (anext sample_json_loads sample_str 7 sample_init (usage_event mapped)).2
      = Returned (usage_event mapped)
    ∧ ∃ u',
        store (anext sample_json_loads sample_str 7 sample_init
                 (usage_event mapped)).1 !! _usage sample_init = Some u'
        ∧ (∀ k, k ∈ int_keys → counters u' !! k = counters mapped !! k)
        ∧ (∀ ck, ck ∈ cost_keys → cost u' !! ck = cost mapped !! ck).
Proof.
  eexists. split; [reflexivity|].
  apply (usage_event_taken_over sample_json_loads sample_str
           (VFloat 3) (VInt 15)
           {[ "usage" := VDict {[ "prompt_tokens" := VInt 1000000;
                                  "completion_tokens" := VInt 500000 ]} ]}
           _ 7 sample_init _zero_usage); reflexivity.
Defined.

End OpenAICompatFacts.

(** ** The entry points and the mock provider *)

Module EntryFacts.
Import Registry EventStream Entry.

Lemma str_take_drop n s : str_take n s +:+ str_drop n s = s.
Proof.
  revert s. induction n as [|n IH]; intros [|a s]; try done.
  simpl. change (String a (str_take n s) +:+ str_drop n s)
    with (String a (str_take n s +:+ str_drop n s)). by rewrite IH.
Qed.

Lemma truthy_false s : truthy s = false → s = "".
Proof. by destruct s. Qed.

Lemma timed_events clock events : (timed clock events).*2 = events.
Proof.
  unfold timed. revert clock.
  induction events as [|e events IH]; intros clock; [done|].
  simpl. f_equal. apply (IH (clock ∘ S)).
Qed.

Lemma mock_text_truthy messages : truthy (mock_text messages) = true.
Proof.
  unfold mock_text. destruct (last_user messages) as [msg|]; [|done].
  destruct (negb _); [|done]. by destruct (get msg "content").
Qed.

(** The chunks the mock provider streams, put together, are its text. *)
Lemma mock_chunks text :
  join (filter (λ chunk, truthy chunk = true)
          [str_take 5 text; str_drop 5 text]) = text.
Proof.
  pose proof (str_take_drop 5 text) as Heq. revert Heq.
  generalize (str_take 5 text) (str_drop 5 text). intros a b <-.
  rewrite !filter_cons, filter_nil.
  destruct a, b; simpl; try done;
    by rewrite ?EventStreamFacts.string_app_nil_r.
Qed.

Lemma text_deltas_chunks chunks :
  text_deltas
    ((λ chunk, {[ "type" := VStr "text_delta"; "delta" := VStr chunk ]})
       <$> chunks) = chunks.
Proof. induction chunks as [|c chunks IH]; [done|]. simpl. by f_equal. Qed.

Lemma filter_no_user (messages : list dict) :
  Forall (λ m, eq_str (get m "role") "user" = false) messages →
  filter (λ msg, eq_str (get msg "role") "user" = true) (reverse messages)
  = [].
Proof.
  intros Hall. apply Forall_reverse in Hall.
  induction Hall as [|m l Hm _ IH]; [done|].
  rewrite filter_cons. destruct (decide _) as [Hm'|_]; [|done].
  by rewrite Hm in Hm'.
Qed.

(** The last user message decides the text. *)
Lemma last_user_app before msg after :
  eq_str (get msg "role") "user" = true →
  Forall (λ m, eq_str (get m "role") "user" = false) after →
  last_user (before ++ msg :: after) = Some msg.
Proof.
  intros Hu Hafter. unfold last_user.
  rewrite reverse_app, reverse_cons, filter_app, filter_app.
  rewrite filter_no_user by done. simpl.
  rewrite filter_cons. by destruct (decide _).
Qed.

Lemma last_user_none messages :
  Forall (λ m, eq_str (get m "role") "user" = false) messages →
  last_user messages = None.
Proof.
  intros Hall. unfold last_user.
  by rewrite filter_no_user.
Qed.

Lemma user_nonempty (msg : dict) :
  eq_str (get msg "role") "user" = true → negb (bool_decide (msg = ∅)) = true.
Proof.
  intros Hu. apply negb_true_iff, bool_decide_eq_false. intros ->.
  by vm_compute in Hu.
Qed.

Lemma endswith_app p suffix : endswith (p +:+ suffix) suffix = true.
Proof.
  induction p as [|a p IH].
  - destruct suffix as [|a s]; [done|].
    change (bool_decide (String a s = String a s) || endswith s (String a s)
            = true).
    by rewrite bool_decide_eq_true_2.
  - change (String a p +:+ suffix) with (String a (p +:+ suffix)).
    simpl. rewrite IH. apply orb_true_r.
Qed.







Section Facts.
Variable json_loads : string → option pyval.
Variable builtin_str : pyval → string.
Variable repr : string → string.

(** What [result()] returns on the stream of the mock provider. *)
Lemma mock_result σ model messages clock t_end :
  ∃ self' m,
    result json_loads builtin_str (init σ model)
      (timed clock (mock_events model messages)) t_end = (self', [], inr m)
    ∧ content m = [TextContent (mock_text messages)]
    ∧ stop_reason m = Stop ∧ error_message m = None
    ∧ api m = Model.api model
    ∧ Types.provider m = Model.provider model
    ∧ Types.model m = Model.model model
    ∧ store self' !! usage m = Some _zero_usage.
Proof.
  set (chunks := filter (λ chunk, truthy chunk = true)
                   [str_take 5 (mock_text messages);
                    str_drop 5 (mock_text messages)]).
  set (start := ({[ "type" := VStr "start";
                    "partial" :=
                      VDict {[ "api" := VStr (Model.api model);
                               "provider" := VStr (Model.provider model);
                               "model" := VStr (Model.model model) ]} ]}
                 : Event)).
  set (before :=
         start :: ((λ chunk, ({[ "type" := VStr "text_delta";
                                 "delta" := VStr chunk ]} : Event))
                     <$> chunks)).
  assert (∀ P : Event → Prop,
            P start →
            (∀ chunk, P {[ "type" := VStr "text_delta";
                           "delta" := VStr chunk ]}) →
            Forall P before) as Hall.
  { intros P Hs Hc. constructor; [done|].
    apply Forall_forall. intros e He.
    apply list_elem_of_fmap in He as (c & -> & _). apply Hc. }
  destruct (EventStreamFacts.result_done json_loads builtin_str σ model
              (timed clock (mock_events model messages)) before
              {[ "type" := VStr "done"; "reason" := VStr "stop" ]} t_end)
    as (self' & m & Hres & Hcontent & Hstop & Herr & Ha & Hp & Hm & Hus).
  - by rewrite timed_events.
  - by apply Hall.
  - by apply Hall.
  - done.
  - done.
  - exists self', m. split; [done|].
    destruct Hstop as [Hcalls Hstop]; [by apply Hall|].
    assert (text_deltas before = chunks) as Htd.
    { etrans; [|apply (text_deltas_chunks chunks)]. reflexivity. }
    rewrite Hcontent, Hcalls, Htd. unfold chunks.
    rewrite mock_chunks, mock_text_truthy.
    repeat split; try done. by apply Hus, Hall.
Qed.

(** X8: with the built-in providers registered into an empty registry,
    [stream] finds an OpenAI-compatible provider for every model that
    [get_model] hands out for openrouter, deepseek and qwen, its base URL the
    one of the environment or the default, without trailing slashes; for the
    model that [get_model] hands out for the mock provider [stream] raises
    [ValueError], no provider being registered for it.  A second call of
    [register_builtins] changes nothing, also after the registry has been
    cleared, which leaves every model without a provider. *)
Theorem builtins_dispatch env model :
  let st := (register_builtins env (∅, false)).1 in
  (register_builtins env (∅, false)).2 = inr ()
  ∧ register_builtins env st = (st, inr ())
  ∧ (∃ m, get_model repr "openrouter" model = inr m
       ∧ stream repr st.1 m
         = inr (OpenAICompatibleProvider
                  (rstrip_slash (getenv env "OPENROUTER_BASE_URL"
                                   "https://openrouter.ai/api"))
                  "openrouter" ∅))
  ∧ (∃ m, get_model repr "deepseek" model = inr m
       ∧ stream repr st.1 m
         = inr (OpenAICompatibleProvider
                  (rstrip_slash (getenv env "DEEPSEEK_BASE_URL"
                                   "https://api.deepseek.com"))
                  "deepseek" ∅))
  ∧ (∃ m, get_model repr "qwen" model = inr m
       ∧ stream repr st.1 m
         = inr (OpenAICompatibleProvider
                  (rstrip_slash
                     (getenv env "QWEN_BASE_URL"
                        "https://dashscope.aliyuncs.com/compatible-mode"))
                  "qwen" ∅))
  ∧ (∃ m msg, get_model repr "mock" model = inr m
       ∧ stream repr st.1 m = inl (ValueError msg))
  ∧ (∀ m, ∃ msg,
       stream repr
         (register_builtins env (clear_registry_for_tests st.1, st.2)).1.1 m
       = inl (ValueError msg)).
Proof.
  simpl. split; [done|]. split; [done|].
  repeat split; try (eexists; split; [reflexivity|]; reflexivity).
  - eexists _, _. split; reflexivity.
  - intros m. eexists. reflexivity.
Qed.

(** X9: a call of [register_builtins] that raised is not repaired by
    calling again: the flag was left unset and the identifier
    ["openrouter-chat"] is taken by then, so every further call raises
    [ValueError] and leaves the registry as it is. *)
Theorem register_builtins_failure_sticks env reg st' x :
  register_builtins env (reg, false) = (st', inl x) →
  ∃ msg, register_builtins env st' = (st', inl (ValueError msg)).
Proof.
  unfold register_builtins.
  destruct (reg !! "openrouter-chat") as [p|] eqn:H1.
  { rewrite RegistryFacts.register_taken by done. intros [= <- <-].
    rewrite RegistryFacts.register_taken by done. by eexists. }
  rewrite RegistryFacts.register_fresh by done.
  set (reg1 := <["openrouter-chat" := _]> reg).
  assert (is_Some (reg1 !! "openrouter-chat")) as Hin1.
  { unfold reg1. rewrite lookup_insert_eq. by eexists. }
  destruct (reg1 !! "deepseek-chat") as [p|] eqn:H2.
  { rewrite (RegistryFacts.register_taken "deepseek-chat") by done.
    intros [= <- <-].
    rewrite RegistryFacts.register_taken by done. by eexists. }
  rewrite (RegistryFacts.register_fresh "deepseek-chat") by done.
  set (reg2 := <["deepseek-chat" := _]> reg1).
  assert (is_Some (reg2 !! "openrouter-chat")) as Hin2.
  { unfold reg2. by rewrite lookup_insert_ne. }
  destruct (reg2 !! "qwen-chat") as [p|] eqn:H3.
  { rewrite (RegistryFacts.register_taken "qwen-chat") by done.
    intros [= <- <-].
    rewrite RegistryFacts.register_taken by done. by eexists. }
  rewrite (RegistryFacts.register_fresh "qwen-chat") by done. done.
Qed.

(** X10: completing against the mock provider echoes the last user
    message: when the content of the last message with the role ["user"] is a
    string, the final message holds one text block, ["echo: "] followed by
    that string, with the stop reason [stop], no error message, the model's
    identification and a usage of zeros. *)
Theorem mock_echo σ model before msg after c clock t_end :
  get msg "role" = VStr "user" →
  Forall (λ m, eq_str (get m "role") "user" = false) after →
  get msg "content" = VStr c →
  ∃ self' m,
    result json_loads builtin_str (init σ model)
      (timed clock (mock_events model (before ++ msg :: after))) t_end
    = (self', [], inr m)
    ∧ content m = [TextContent ("echo: " +:+ c)]
    ∧ stop_reason m = Stop ∧ error_message m = None
    ∧ api m = Model.api model
    ∧ Types.provider m = Model.provider model
    ∧ Types.model m = Model.model model
    ∧ store self' !! usage m = Some _zero_usage.
Proof.
  intros Hrole Hafter Hc.
  assert (eq_str (get msg "role") "user" = true) as Hu by by rewrite Hrole.
  destruct (mock_result σ model (before ++ msg :: after) clock t_end)
    as (self' & m & Hres & Hcontent & Hrest).
  exists self', m. split; [done|]. split; [|done].
  rewrite Hcontent. unfold mock_text.
  by rewrite (last_user_app before msg after Hu Hafter), user_nonempty, Hc.
Qed.

(** X11: without a user message, or when the content of the last user
    message is not a string, the mock provider answers
    ["(no user message)"], whatever the earlier user messages hold. *)
Theorem mock_no_user_message σ model messages clock t_end :
  Forall (λ m, eq_str (get m "role") "user" = false) messages
  ∨ (∃ before msg after,
       messages = before ++ msg :: after
       ∧ get msg "role" = VStr "user"
       ∧ Forall (λ m, eq_str (get m "role") "user" = false) after
       ∧ is_str (get msg "content") = false) →
  ∃ self' m,
    result json_loads builtin_str (init σ model)
      (timed clock (mock_events model messages)) t_end
    = (self', [], inr m)
    ∧ content m = [TextContent "(no user message)"]
    ∧ stop_reason m = Stop.
Proof.
  intros Hcase.
  destruct (mock_result σ model messages clock t_end)
    as (self' & m & Hres & Hcontent & Hstop & _).
  exists self', m. split; [done|]. split; [|done].
  rewrite Hcontent. unfold mock_text.
  destruct Hcase as [Hnone|(before & msg & after & -> & Hrole & Hafter & Hc)].
  - by rewrite last_user_none.
  - assert (eq_str (get msg "role") "user" = true) as Hu by by rewrite Hrole.
    rewrite (last_user_app before msg after Hu Hafter), user_nonempty by done.
    by destruct (get msg "content").
Qed.

End Facts.

Lemma register_builtins_failure_sticks_witness :
  let reg : gmap string provider := {[ "deepseek-chat" := MockChatProvider ]} in
  let st' := (register_builtins ∅ (reg, false)).1 in
  (∃ msg, register_builtins ∅ (reg, false) = (st', inl (ValueError msg)))
  ∧ st'.1 !! "openrouter-chat"
    = Some (OpenAICompatibleProvider "https://openrouter.ai/api" "openrouter" ∅)
  ∧ st'.2 = false
  ∧ ∃ msg, register_builtins ∅ st' = (st', inl (ValueError msg)).
Proof.
  split; [eexists; reflexivity|]. split; [reflexivity|].
  split; [reflexivity|].
  eapply (register_builtins_failure_sticks ∅
            {[ "deepseek-chat" := MockChatProvider ]}).
  reflexivity.
Defined.

Lemma mock_echo_witness :
  ∃ self' m,
    result sample_json_loads sample_str (init ∅ sample_model)
      (timed Z.of_nat
         (mock_events sample_model
            [ {[ "role" := VStr "user"; "content" := VStr "hello world" ]};
              {[ "role" := VStr "assistant"; "content" := VList [] ]} ]))
      9
    = (self', [], inr m)
    ∧ content m = [TextContent "echo: hello world"]
    ∧ stop_reason m = Stop ∧ error_message m = None
    ∧ api m = "openai-chat"
    ∧ Types.provider m = "openrouter"
    ∧ Types.model m = "m"
    ∧ store self' !! usage m = Some _zero_usage.
Proof.
  apply (mock_echo sample_json_loads sample_str ∅ sample_model []
           {[ "role" := VStr "user"; "content" := VStr "hello world" ]}
           [ {[ "role" := VStr "assistant"; "content" := VList [] ]} ]
           "hello world" Z.of_nat 9).
  - reflexivity.
  - repeat constructor.
  - reflexivity.
Defined.

Lemma mock_no_user_message_witness :
  ∃ self' m,
    result sample_json_loads sample_str (init ∅ sample_model)
      (timed Z.of_nat
         (mock_events sample_model
            [ {[ "role" := VStr "user"; "content" := VStr "hello world" ]};
              {[ "role" := VStr "user";
                 "content" := VList [VStr "hello again"] ]} ]))
      9
    = (self', [], inr m)
    ∧ content m = [TextContent "(no user message)"]
    ∧ stop_reason m = Stop.
Proof.
  apply (mock_no_user_message sample_json_loads sample_str ∅ sample_model
           [ {[ "role" := VStr "user"; "content" := VStr "hello world" ]};
             {[ "role" := VStr "user";
                "content" := VList [VStr "hello again"] ]} ]
           Z.of_nat 9).
  right.
  exists [ {[ "role" := VStr "user"; "content" := VStr "hello world" ]} ],
    {[ "role" := VStr "user"; "content" := VList [VStr "hello again"] ]}, [].
  repeat split. constructor.
Defined.

End EntryFacts.
